(** * Authentication and session lifecycle of the POS pipeline

    A shallow embedding of the two programs that make up the subsystem:

    - [AuthMiddleware]: the Express middlewares [authenticate],
      [requireRole] and [requireAnyRole] of [backend/src/middleware/auth.js];
    - [ApiClient]: the axios request and response interceptors of
      [frontend/src/services/api.js].

    JavaScript objects are finite maps from field names to values, an
    absent field reads as [undefined] ([None]).  The servers, the JWKS
    client, the clock and the wire format and signatures of tokens are
    arguments of the definitions: every statement holds for all of them. *)

From Stdlib Require Import Ascii.
From stdpp Require Import gmap strings list pretty.

Open Scope string_scope.
Open Scope list_scope.

(** ** JavaScript values *)

Module Js.

(** The JSON scalars that occur in token payloads and in the stored
    token object. *)
Inductive value :=
| Str (s : string)
| Num (n : Z).

#[export] Instance value_eq_dec : EqDecision value.
Proof. solve_decision. Defined.

(** [!!v] for a field read: [undefined], the empty string and [0] are
    falsy. *)
Definition truthy (v : option value) : bool :=
  match v with
  | None => false
  | Some (Str s) => negb (String.eqb s EmptyString)
  | Some (Num n) => negb (Z.eqb n 0)
  end.

(** [!!s] for something that is a string or [undefined]/[null]. *)
Definition truthy_string (s : option string) : bool :=
  match s with
  | None => false
  | Some s => negb (String.eqb s EmptyString)
  end.

(** [s.split(' ')]: one part more than there are spaces. *)
Fixpoint split_space (s : string) : list string :=
  match s with
  | EmptyString => [EmptyString]
  | String c rest =>
      if Ascii.eqb c " "%char then EmptyString :: split_space rest
      else match split_space rest with
           | [] => [String c EmptyString]
           | w :: ws => String c w :: ws
           end
  end.

(** The template literal [`${v}`]. *)
Definition template (v : option value) : string :=
  match v with
  | None => "undefined"
  | Some (Str s) => s
  | Some (Num n) => pretty n
  end.

(** [v === s] for a string [s]. *)
Definition strict_eq_string (v : value) (s : string) : bool :=
  match v with
  | Str r => String.eqb r s
  | Num _ => false
  end.

(** [roles.includes(v)] for an array of strings. *)
Definition includes (roles : list string) (v : value) : bool :=
  existsb (strict_eq_string v) roles.

End Js.

(** ** backend/src/middleware/auth.js *)

Module AuthMiddleware.
Import Js.

(** [res.status(n).json({ message })] *)
Record response := { status : nat; message : string }.

#[export] Instance response_eq_dec : EqDecision response.
Proof. solve_decision. Defined.

(** The part of the Express request the middlewares read and write. *)
Record request := {
  authorization : option string;        (* req.headers.authorization *)
  user : option (gmap string value)     (* req.user *)
}.

(** A middleware either answers or calls [next()]. *)
Inductive outcome :=
| Respond (r : response)
| Next (req : request).

(** A thrown error, as far as the [catch] block looks at it. *)
Record js_error := { name : string }.

(** What [jwt.decode(token, { complete: true })] yields. *)
Record decoded_token := {
  alg : option string;                  (* header.alg *)
  kid : option string;                  (* header.kid *)
  payload : gmap string value
}.

(** Options of [jwt.verify]; an option that is not passed is [None]. *)
Record verify_options := {
  algorithms : list string;
  audience : option string;
  issuer : option string
}.

(** Calls that leave the process. *)
Inductive event :=
| KeyLookup (k : option string).        (* client.getSigningKey(kid, cb) *)

(** The one-character string holding a double quote. *)
Definition dquote : string := String (ascii_of_nat 34) EmptyString.

Definition no_header : response :=
  {| status := 401; message := "No authorization header provided" |}.
Definition bad_format : response :=
  {| status := 401;
     message := "Authorization header format must be " +:+ dquote
                +:+ "Bearer token" +:+ dquote |}.
Definition invalid_token : response :=
  {| status := 401; message := "Invalid token" |}.
Definition token_expired : response :=
  {| status := 401; message := "Token expired" |}.
Definition authentication_failed : response :=
  {| status := 401; message := "Authentication failed" |}.
Definition authentication_required : response :=
  {| status := 401; message := "Authentication required" |}.
Definition insufficient_permissions : response :=
  {| status := 403; message := "Insufficient permissions" |}.

Section Authenticate.

(** The compact-serialization decoder shared by [jwt.decode] and
    [jwt.verify]: [None] when the text is not a well-formed token. *)
Variable jws_decode : string -> option decoded_token.

(** [jws.verify(token, alg, key)]: the signature check itself. *)
Variable jws_verify : string -> string -> string -> bool.

(** Seconds since the epoch at the time of the call. *)
Variable clock : Z.

(** The JWKS client behind [getSigningKey(kid)]: the public key, or the
    error the promise is rejected with. *)
Variable getSigningKey : option string -> js_error + string.

Definition jwt_decode (token : string) : option decoded_token :=
  jws_decode token.

Definition JsonWebTokenError : js_error := {| name := "JsonWebTokenError" |}.
Definition TokenExpiredError : js_error := {| name := "TokenExpiredError" |}.
Definition NotBeforeError : js_error := {| name := "NotBeforeError" |}.

Definition check_nbf (p : gmap string value) : option js_error :=
  match p !! "nbf" with
  | None => None
  | Some (Str _) => Some JsonWebTokenError
  | Some (Num n) => if (clock <? n)%Z then Some NotBeforeError else None
  end.

Definition check_exp (p : gmap string value) : option js_error :=
  match p !! "exp" with
  | None => None
  | Some (Str _) => Some JsonWebTokenError
  | Some (Num n) => if (n <=? clock)%Z then Some TokenExpiredError else None
  end.

Definition check_claim (field : string) (expected : option string)
    (p : gmap string value) : option js_error :=
  match expected with
  | None => None
  | Some e =>
      match p !! field with
      | Some v => if strict_eq_string v e then None else Some JsonWebTokenError
      | None => Some JsonWebTokenError
      end
  end.

(** [jwt.verify(token, key, options)] of the jsonwebtoken package, in
    the order of its checks: decode, algorithm allow-list, signature,
    not-before, expiry, then the audience and issuer a caller asked
    for.  [inl] is the thrown error, [inr] the payload. *)
Definition jwt_verify (token key : string) (o : verify_options)
    : js_error + gmap string value :=
  match jws_decode token with
  | None => inl JsonWebTokenError
  | Some d =>
      match alg d with
      | None => inl JsonWebTokenError
      | Some a =>
          if negb (existsb (String.eqb a) (algorithms o)) then inl JsonWebTokenError
          else if negb (jws_verify token a key) then inl JsonWebTokenError
          else match check_nbf (payload d) with
               | Some e => inl e
               | None =>
               match check_exp (payload d) with
               | Some e => inl e
               | None =>
               match check_claim "aud" (audience o) (payload d) with
               | Some e => inl e
               | None =>
               match check_claim "iss" (issuer o) (payload d) with
               | Some e => inl e
               | None => inr (payload d)
               end end end end
      end
  end.

(** The [catch] block of [authenticate]. *)
Definition on_error (e : js_error) : response :=
  if String.eqb (name e) "TokenExpiredError" then token_expired
  else if String.eqb (name e) "JsonWebTokenError" then invalid_token
  else authentication_failed.

(** [authenticate(req, res, next)], with the key lookups it made. *)
Definition authenticate (req : request) : outcome * list event :=
  if negb (truthy_string (authorization req)) then (Respond no_header, [])
  else
    match split_space (default EmptyString (authorization req)) with
    | [p0; token] =>
        if negb (String.eqb p0 "Bearer") then (Respond bad_format, [])
        else
          match jwt_decode token with
          | None => (Respond invalid_token, [])
          | Some decodedToken =>
              let lookups := [KeyLookup (kid decodedToken)] in
              match getSigningKey (kid decodedToken) with
              | inl e => (Respond (on_error e), lookups)
              | inr signingKey =>
                  match jwt_verify token signingKey
                          {| algorithms := ["RS256"];
                             audience := None; issuer := None |} with
                  | inl e => (Respond (on_error e), lookups)
                  | inr verifiedToken =>
                      (Next {| authorization := authorization req;
                               user := Some verifiedToken |}, lookups)
                  end
              end
          end
    | _ => (Respond bad_format, [])
    end.

End Authenticate.

(** [requireRole(requiredRole)] *)
Definition requireRole (requiredRole : string) (req : request) : outcome :=
  match user req with
  | None => Respond authentication_required
  | Some u =>
      let userRole := u !! "custom:role" in
      if negb (truthy userRole)
         || negb (from_option (fun v => strict_eq_string v requiredRole) false userRole)
      then Respond insufficient_permissions
      else Next req
  end.

(** [requireAnyRole(roles)] *)
Definition requireAnyRole (roles : list string) (req : request) : outcome :=
  match user req with
  | None => Respond authentication_required
  | Some u =>
      let userRole := u !! "custom:role" in
      if negb (truthy userRole)
         || negb (from_option (includes roles) false userRole)
      then Respond insufficient_permissions
      else Next req
  end.


(** *** A small key set and two tokens, used to run the middlewares *)

Definition pool_issuer : string :=
  "https://cognito-idp.us-east-1.amazonaws.com/us-east-1_pool".
Definition pool_client : string := "pos-web-client".

(** [rs256.k1.cashier] is a token of another issuer and audience, signed
    with the RS256 key [k1]; [hs256.k1] declares a symmetric algorithm. *)
Definition demo_claims : gmap string value :=
  {[ "sub" := Str "u-17";
     "custom:role" := Str "cashier";
     "iss" := Str "https://attacker.example";
     "aud" := Str "another-client";
     "exp" := Num 2000 ]}.

Definition demo_decode (token : string) : option decoded_token :=
  if String.eqb token "rs256.k1.cashier" then
    Some {| alg := Some "RS256"; kid := Some "k1"; payload := demo_claims |}
  else if String.eqb token "hs256.k1" then
    Some {| alg := Some "HS256"; kid := Some "k1";
            payload := {[ "custom:role" := Str "admin" ]} |}
  else None.

Definition demo_jws_verify (token a key : string) : bool :=
  String.eqb a "RS256" && String.eqb key "pem-of-k1".

Definition demo_jwks (k : option string) : js_error + string :=
  match k with
  | Some k => if String.eqb k "k1" then inr "pem-of-k1"
              else inl {| name := "SigningKeyNotFoundError" |}
  | None => inl {| name := "SigningKeyNotFoundError" |}
  end.

Definition demo_authenticate : request -> outcome * list event :=
  authenticate demo_decode demo_jws_verify 1000 demo_jwks.

End AuthMiddleware.

(** ** frontend/src/services/api.js *)

Module ApiClient.
Import Js.

(** What axios keeps of one call.  [error.config] is this object, and
    [api(originalRequest)] sends a copy that keeps every field, also the
    [_retry] mark the response interceptor puts on it. *)
Record request_config := {
  url : string;
  Authorization : option string;          (* config.headers.Authorization *)
  _retry : bool                           (* originalRequest._retry *)
}.

Definition set_retry (config : request_config) : request_config :=
  {| url := url config; Authorization := Authorization config; _retry := true |}.

Definition set_Authorization (h : string) (config : request_config)
    : request_config :=
  {| url := url config; Authorization := Some h; _retry := _retry config |}.

(** What a promise of the client can be rejected with. *)
Inductive error :=
| AxiosError (config : request_config) (status : option nat)
    (* a failed call of [api]: error.config and error.response?.status *)
| RefreshError (status : option nat)
    (* the failed [axios.post] to /auth/refresh *)
| SyntaxError                             (* thrown by JSON.parse *)
| TypeError.                              (* a field read on null *)

(** An item of [localStorage], seen through [JSON.parse]: a text that does
    not parse (the empty string is one), the text [null], or the text of
    an object, which is what [JSON.stringify] writes. *)
Inductive item :=
| Unparsable (text : string)
| Null
| Object (o : gmap string value).

(** [!!localStorage.getItem(key)] *)
Definition truthy_item (i : option item) : bool :=
  match i with
  | None => false
  | Some (Unparsable text) => negb (String.eqb text EmptyString)
  | Some Null => true
  | Some (Object _) => true
  end.

(** Calls that leave the browser. *)
Inductive call :=
| ApiRequest (config : request_config)
| RefreshPost (refreshToken : option value).

Record client := {
  localStorage : gmap string item;
  location_href : string;                 (* window.location.href *)
  calls : list call                       (* oldest first *)
}.

Definition issue (k : call) (c : client) : client :=
  {| localStorage := localStorage c;
     location_href := location_href c;
     calls := calls c ++ [k] |}.

(** [localStorage.setItem(key, JSON.stringify(o))] *)
Definition setItem (key : string) (o : gmap string value) (c : client) : client :=
  {| localStorage := <[key := Object o]> (localStorage c);
     location_href := location_href c;
     calls := calls c |}.

(** [{ ...o, [field]: v }] as it reads back and as [JSON.stringify] writes
    it: a field set to [undefined] is a field that is not there. *)
Definition assign (field : string) (v : option value) (o : gmap string value)
    : gmap string value :=
  match v with
  | Some x => <[field := x]> o
  | None => delete field o
  end.

(** The request interceptor. *)
Definition on_request (c : client) (config : request_config) : request_config :=
  match localStorage c !! "tokens" with
  | Some (Object tokens) =>
      if truthy (tokens !! "accessToken")
      then set_Authorization ("Bearer " +:+ template (tokens !! "accessToken")) config
      else config
  | Some (Unparsable _) => config         (* falsy, or the parse error is logged *)
  | Some Null => config                   (* the TypeError is logged *)
  | None => config
  end.

(** The [catch (refreshError)] block. *)
Definition refresh_failed (refreshError : error) (c : client) : error * client :=
  (refreshError,
   {| localStorage := delete "tokens" (localStorage c);
      location_href := "/login";
      calls := calls c |}).

(** The rejection handler of the response interceptor runs in two turns of
    the event loop.  [on_rejected] is the first, up to the [await]: it
    either settles the call or has sent the refresh request and waits. *)
Inductive turn :=
| Rejected (e : error)
| AwaitingRefresh (tokens : gmap string value) (originalRequest : request_config).

(** [error.response?.status === n] *)
Definition status_is (n : nat) (status : option nat) : bool :=
  match status with
  | Some m => Nat.eqb m n
  | None => false
  end.

Definition on_rejected (e : error) (c : client) : turn * client :=
  match e with
  | AxiosError config status =>
      if status_is 401 status && negb (_retry config) then
        let originalRequest := set_retry config in
        let tokensString := localStorage c !! "tokens" in
        if truthy_item tokensString then
          match tokensString with
          | Some (Object tokens) =>
              (AwaitingRefresh tokens originalRequest,
               issue (RefreshPost (tokens !! "refreshToken")) c)
          | Some Null =>
              let (err, c') := refresh_failed TypeError c in (Rejected err, c')
          | _ =>
              let (err, c') := refresh_failed SyntaxError c in (Rejected err, c')
          end
        else (Rejected (AxiosError originalRequest status), c)
      else (Rejected e, c)
  | _ => (Rejected e, c)
  end.

(** How the refresh request ends: [refreshResponse.data], or the status of
    the error response if there was one. *)
Inductive refresh_result :=
| RefreshOk (data : gmap string value)
| RefreshFail (status : option nat).

(** The second turn, after the [await]: the error the call is rejected
    with, or the request that [api(originalRequest)] sends again. *)
Definition on_refresh_settled (tokens : gmap string value)
    (originalRequest : request_config) (r : refresh_result) (c : client)
    : (error + request_config) * client :=
  match r with
  | RefreshOk data =>
      let newTokens :=
        assign "expiresIn" (data !! "expiresIn")
          (assign "idToken" (data !! "idToken")
             (assign "accessToken" (data !! "accessToken") tokens)) in
      let c' := setItem "tokens" newTokens c in
      (inr (set_Authorization
              ("Bearer " +:+ template (newTokens !! "accessToken"))
              originalRequest), c')
  | RefreshFail status =>
      let (err, c') := refresh_failed (RefreshError status) c in (inl err, c')
  end.

(** The servers: what they answer, given everything sent so far. *)
Inductive reply :=
| Ok (body : string)
| Fail (status : option nat).             (* error.response?.status *)

Record network := {
  respond : list call -> request_config -> reply;
  refresh : list call -> option value -> refresh_result
}.

Inductive result :=
| Resolved (body : string)
| Failed (e : error).

(** [api(config)] run to the end: request interceptor, the call, the
    response interceptor and, through it, [api(originalRequest)]. *)
Fixpoint api (fuel : nat) (net : network) (config : request_config) (c : client)
    : option (result * client) :=
  match fuel with
  | O => None
  | S fuel' =>
      let config := on_request c config in
      let c := issue (ApiRequest config) c in
      match respond net (calls c) config with
      | Ok body => Some (Resolved body, c)
      | Fail status =>
          match on_rejected (AxiosError config status) c with
          | (Rejected e, c) => Some (Failed e, c)
          | (AwaitingRefresh tokens originalRequest, c) =>
              match on_refresh_settled tokens originalRequest
                      (refresh net (calls c) (tokens !! "refreshToken")) c with
              | (inl e, c) => Some (Failed e, c)
              | (inr again, c) => api fuel' net again c
              end
          end
      end
  end.

(** Rejections that arrive one after the other, with no other turn in
    between: every handler runs its first turn. *)
Fixpoint deliver (errors : list error) (c : client) : list turn * client :=
  match errors with
  | [] => ([], c)
  | e :: rest =>
      let (t, c1) := on_rejected e c in
      let (ts, c2) := deliver rest c1 in
      (t :: ts, c2)
  end.

(** The rejection of a call that was answered 401. *)
Definition unauthorized (config : request_config) : error :=
  AxiosError config (Some 401).

Definition is_refresh (k : call) : bool :=
  match k with RefreshPost _ => true | ApiRequest _ => false end.

Definition refresh_posts (l : list call) : nat :=
  length (List.filter is_refresh l).

Definition api_requests (l : list call) : nat :=
  length (List.filter (fun k => negb (is_refresh k)) l).

(** *** A signed-in browser and some servers, used to run the client *)

Definition stored_tokens : gmap string value :=
  {[ "accessToken" := Str "access-0";
     "idToken" := Str "id-0";
     "refreshToken" := Str "refresh-0";
     "expiresIn" := Num 3600 ]}.

Definition signed_in : client :=
  {| localStorage := {[ "tokens" := Object stored_tokens; "theme" := Unparsable "dark" ]};
     location_href := "/pos";
     calls := [] |}.

Definition signed_out : client :=
  {| localStorage := {[ "theme" := Unparsable "dark" ]};
     location_href := "/pos";
     calls := [] |}.

Definition get_products : request_config :=
  {| url := "/api/products"; Authorization := None; _retry := false |}.

Definition get_transactions : request_config :=
  {| url := "/api/transactions/me"; Authorization := None; _retry := false |}.

(** What the refresh route answers the [n]-th time. *)
Definition issued (n : Z) : gmap string value :=
  {[ "accessToken" := Str ("access-" +:+ pretty n);
     "idToken" := Str ("id-" +:+ pretty n);
     "expiresIn" := Num 300 ]}.

(** A server that answers every call with 401 and refreshes gladly. *)
Definition rejecting : network :=
  {| respond := fun _ _ => Fail (Some 401);
     refresh := fun _ _ => RefreshOk (issued 1) |}.

(** A server that answers 401 and turns the refresh token down too. *)
Definition closed : network :=
  {| respond := fun _ _ => Fail (Some 401);
     refresh := fun _ _ => RefreshFail (Some 400) |}.

End ApiClient.

(** ** backend/src/app.js and the routers: which checks guard a route *)

Module App.
Import Js AuthMiddleware.

(** The routes the three routers declare. *)
Inductive route :=
| ProductsList                  (* GET    /api/products *)
| ProductsSearch                (* GET    /api/products/search *)
| ProductsGet                   (* GET    /api/products/:id *)
| ProductsCreate                (* POST   /api/products *)
| ProductsUpdate                (* PUT    /api/products/:id *)
| ProductsDelete                (* DELETE /api/products/:id *)
| TransactionsCreate            (* POST   /api/transactions *)
| TransactionsGet               (* GET    /api/transactions/:id *)
| TransactionsByDate            (* GET    /api/transactions/date/:startDate/:endDate *)
| TransactionsByCashier         (* GET    /api/transactions/cashier/:cashierId *)
| TransactionsMine              (* GET    /api/transactions/me *)
| TransactionsList              (* GET    /api/transactions *)
| AuthLogin                     (* POST   /api/auth/login *)
| AuthRefresh                   (* POST   /api/auth/refresh *)
| AuthChangePassword            (* POST   /api/auth/change-password *)
| AuthForgotPassword            (* POST   /api/auth/forgot-password *)
| AuthConfirmForgotPassword     (* POST   /api/auth/confirm-forgot-password *)
| AuthCreateUser                (* POST   /api/auth/users *)
| AuthMe.                       (* GET    /api/auth/me *)

(** The two middlewares of middleware/auth.js as they are mounted. *)
Inductive guard :=
| Authenticate
| RequireRole (requiredRole : string).

(** The guards a request meets before the handler of the route, in
    order: those of [app.use(path, ...)] and then those of the route. *)
Definition guards (r : route) : list guard :=
  match r with
  | ProductsList | ProductsSearch | ProductsGet => [Authenticate]
  | ProductsCreate | ProductsUpdate | ProductsDelete =>
      [Authenticate; RequireRole "admin"]
  | TransactionsCreate | TransactionsGet | TransactionsByDate
  | TransactionsByCashier | TransactionsMine | TransactionsList => [Authenticate]
  | AuthCreateUser => [RequireRole "admin"]
  | AuthLogin | AuthRefresh | AuthChangePassword | AuthForgotPassword
  | AuthConfirmForgotPassword | AuthMe => []
  end.

Section Guards.

Variable jws_decode : string -> option decoded_token.
Variable jws_verify : string -> string -> string -> bool.
Variable clock : Z.
Variable getSigningKey : option string -> js_error + string.

Definition run_guard (g : guard) (req : request) : outcome * list event :=
  match g with
  | Authenticate => authenticate jws_decode jws_verify clock getSigningKey req
  | RequireRole requiredRole => (requireRole requiredRole req, [])
  end.

(** Express runs the handlers of a route one after the other: a handler
    that answers ends the chain, [next()] hands the request on. *)
Fixpoint run_guards (gs : list guard) (req : request) : outcome * list event :=
  match gs with
  | [] => (Next req, [])
  | g :: rest =>
      match run_guard g req with
      | (Respond r, ev) => (Respond r, ev)
      | (Next req', ev) =>
          let (o, ev') := run_guards rest req' in (o, ev ++ ev')
      end
  end.

Definition guarded (r : route) (req : request) : outcome * list event :=
  run_guards (guards r) req.

End Guards.

(** A token of the pool's administrator, for the runs. *)
Definition admin_claims : gmap string value :=
  {[ "sub" := Str "u-1"; "custom:role" := Str "admin"; "exp" := Num 2000 ]}.

Definition admin_decode (token : string) : option decoded_token :=
  if String.eqb token "rs256.k1.admin" then
    Some {| alg := Some "RS256"; kid := Some "k1"; payload := admin_claims |}
  else demo_decode token.

Definition admin_request : request :=
  {| authorization := Some "Bearer rs256.k1.admin"; user := None |}.

End App.

(** ** frontend/src/contexts/AuthContext.jsx *)

Module AuthContext.
Import Js.

(** Calls the provider starts through [api]. *)
Inductive request :=
| Get (url : string)
| Post (url : string) (body : gmap string value).

(** The provider's React state, the browser storage it writes and the
    default header of the [api] instance. *)
Record state := {
  user : option (gmap string value);
  tokens : option (gmap string value);
  loading : bool;
  error : option string;
  localStorage : gmap string ApiClient.item;
  default_Authorization : option string;  (* api.defaults.headers.common['Authorization'] *)
  requests : list request                 (* oldest first *)
}.

(** The state of [useState] at the first render. *)
Definition initial (storage : gmap string ApiClient.item) : state :=
  {| user := None; tokens := None; loading := true; error := None;
     localStorage := storage; default_Authorization := None; requests := [] |}.

(** [isAuthenticated: !!user] *)
Definition isAuthenticated (st : state) : bool :=
  match user st with Some _ => true | None => false end.

Definition logout (st : state) : state :=
  {| user := None; tokens := None; loading := loading st; error := error st;
     localStorage := delete "tokens" (localStorage st);
     default_Authorization := None;
     requests := requests st |}.

Definition setLoading (b : bool) (st : state) : state :=
  {| user := user st; tokens := tokens st; loading := b; error := error st;
     localStorage := localStorage st;
     default_Authorization := default_Authorization st;
     requests := requests st |}.

(** What [refreshTokens] throws. *)
Inductive thrown :=
| NoRefreshToken                          (* new Error('No refresh token available') *)
| Rethrown (err : ApiClient.error).       (* throw err *)

(** [refreshTokens] up to its [await]: it throws, or it has posted the
    refresh token and waits with the token object of its render. *)
Definition refreshTokens (st : state) : (thrown + gmap string value) * state :=
  match tokens st with
  | Some t =>
      match t !! "refreshToken" with
      | Some refreshToken =>
          if truthy (Some refreshToken) then
            (inr t,
             {| user := user st; tokens := tokens st; loading := loading st;
                error := error st; localStorage := localStorage st;
                default_Authorization := default_Authorization st;
                requests := requests st
                  ++ [Post "/auth/refresh" {[ "refreshToken" := refreshToken ]}] |})
          else (inl NoRefreshToken, st)
      | None => (inl NoRefreshToken, st)
      end
  | None => (inl NoRefreshToken, st)
  end.

(** [refreshTokens] after the [await]: [r] is [response.data], or the
    error the call was rejected with. *)
Definition refreshTokens_settled (t : gmap string value)
    (r : ApiClient.error + gmap string value) (st : state)
    : (thrown + gmap string value) * state :=
  match r with
  | inr data =>
      let newTokens :=
        ApiClient.assign "expiresIn" (data !! "expiresIn")
          (ApiClient.assign "idToken" (data !! "idToken")
             (ApiClient.assign "accessToken" (data !! "accessToken") t)) in
      (inr newTokens,
       {| user := user st; tokens := Some newTokens; loading := loading st;
          error := error st;
          localStorage := <["tokens" := ApiClient.Object newTokens]> (localStorage st);
          default_Authorization :=
            Some ("Bearer " +:+ template (newTokens !! "accessToken"));
          requests := requests st |})
  | inl err => (inl (Rethrown err), logout st)
  end.

(** [fetchUserProfile(accessToken)] up to its [await]. *)
Definition fetchUserProfile (accessToken : option value) (st : state) : state :=
  {| user := user st; tokens := tokens st; loading := loading st;
     error := error st; localStorage := localStorage st;
     default_Authorization := Some ("Bearer " +:+ template accessToken);
     requests := requests st ++ [Get "/auth/me"] |}.

(** [err.response && err.response.status] *)
Definition response_status (err : ApiClient.error) : option nat :=
  match err with
  | ApiClient.AxiosError _ status => status
  | ApiClient.RefreshError status => status
  | ApiClient.SyntaxError => None
  | ApiClient.TypeError => None
  end.

(** [fetchUserProfile] after the [await]. *)
Definition fetchUserProfile_settled
    (r : ApiClient.error + gmap string value) (st : state) : state :=
  match r with
  | inr data =>
      setLoading false
        {| user := Some data; tokens := tokens st; loading := loading st;
           error := error st; localStorage := localStorage st;
           default_Authorization := default_Authorization st;
           requests := requests st |}
  | inl err =>
      if ApiClient.status_is 401 (response_status err)
         || ApiClient.status_is 403 (response_status err)
      then setLoading false (logout st)
      else setLoading false st
  end.

(** The effect that runs once after the first render. *)
Definition loadTokens (st : state) : state :=
  let storedTokens := localStorage st !! "tokens" in
  if ApiClient.truthy_item storedTokens then
    match storedTokens with
    | Some (ApiClient.Object parsedTokens) =>
        fetchUserProfile (parsedTokens !! "accessToken")
          {| user := user st; tokens := Some parsedTokens; loading := loading st;
             error := error st; localStorage := localStorage st;
             default_Authorization := default_Authorization st;
             requests := requests st |}
    | Some ApiClient.Null =>
        (* setTokens(null), then the TypeError of null.accessToken *)
        setLoading false
          {| user := user st; tokens := None; loading := loading st;
             error := error st;
             localStorage := delete "tokens" (localStorage st);
             default_Authorization := default_Authorization st;
             requests := requests st |}
    | _ =>
        setLoading false
          {| user := user st; tokens := tokens st; loading := loading st;
             error := error st;
             localStorage := delete "tokens" (localStorage st);
             default_Authorization := default_Authorization st;
             requests := requests st |}
    end
  else setLoading false st.

End AuthContext.

(** ** backend/src/utils/error-handler.js *)

Module ErrorHandler.
Import Js.

(** What the handler reads of the error it is given. *)
Record error := {
  is_validation_result : bool;            (* err instanceof validationResult.Result *)
  array : list string;                    (* err.array() *)
  code : option string;
  statusCode : option nat;
  message : option string;
  stack : option string
}.

(** The JSON bodies the back end answers with. *)
Inductive body :=
| Errors (errors : list string)           (* { errors } *)
| Message (message : string) (stack : option string)
                                          (* { message } or { message, stack } *)
| Object (fields : gmap string string).

Record response := { status : nat; json : body }.

Definition answer (status : nat) (message : string) : response :=
  {| status := status; json := Message message None |}.

(** [n || d] for a number that may be missing. *)
Definition number_or (n : option nat) (d : nat) : nat :=
  match n with
  | Some 0 => d
  | Some m => m
  | None => d
  end.

(** [s || d] for a string that may be missing. *)
Definition string_or (s : option string) (d : string) : string :=
  if truthy_string s then default d s else d.

(** The [switch (err.code)]: the answer of the matching case, if any. *)
Definition aws_answer (err : error) (code : string) : option response :=
  if String.eqb code "ConditionalCheckFailedException" then
    Some (answer 409 "Resource already exists or condition not met")
  else if String.eqb code "ResourceNotFoundException" then
    Some (answer 404 "Resource not found")
  else if String.eqb code "ServiceUnavailable" then
    Some (answer 503 "Service temporarily unavailable")
  else if String.eqb code "ThrottlingException" then
    Some (answer 429 "Too many requests, please try again later")
  else if String.eqb code "ValidationException" then
    Some (answer 400 (string_or (message err) "Validation error"))
  else if String.eqb code "AccessDeniedException" then
    Some (answer 403 "Access denied")
  else if String.eqb code "ProvisionedThroughputExceededException" then
    Some (answer 429 "Database capacity exceeded, please try again later")
  else None.

(** The default answer, below the [switch]. *)
Definition default_answer (production : bool) (err : error) : response :=
  let statusCode := number_or (statusCode err) 500 in
  let message := string_or (message err) "Internal server error" in
  if production && Nat.eqb statusCode 500 then answer 500 "Internal server error"
  else {| status := statusCode;
          json := Message message (if production then None else stack err) |}.

(** [errorHandler(err, req, res, next)]; [production] is
    [process.env.NODE_ENV === 'production']. *)
Definition errorHandler (production : bool) (err : error) : response :=
  if is_validation_result err then {| status := 400; json := Errors (array err) |}
  else if truthy_string (code err) then
    match aws_answer err (default EmptyString (code err)) with
    | Some r => r
    | None => default_answer production err
    end
  else default_answer production err.

End ErrorHandler.

(** ** backend/src/routes/auth.js: GET /api/auth/me *)

Module AuthRoutes.
Import Js ErrorHandler.

(** What [cognito.getUser] resolves with. *)
Record user_info := {
  Username : option string;
  UserAttributes : list (string * string)   (* Name, Value *)
}.

(** A route handler answers or calls [next(error)]. *)
Inductive handled :=
| Answer (r : response)
| NextError (err : error).

(** [attributes[attr.Name] = attr.Value] for every attribute in turn. *)
Definition attributes_of (l : list (string * string)) : gmap string string :=
  fold_left (fun attributes attr => <[attr.1 := attr.2]> attributes) l ∅.

(** [{ ...o, [field]: v }] as [res.json] sends it. *)
Definition field (name : string) (v : option string) (o : gmap string string)
    : gmap string string :=
  match v with
  | Some x => <[name := x]> o
  | None => o
  end.

Section Me.

(** The Cognito service: the user of an access token, or the error. *)
Variable getUser : option string -> error + user_info.

(** The TypeError of reading [split] of [undefined], whose text is the
    engine's. *)
Variable type_error_message : option string.
Variable type_error_stack : option string.

Definition TypeError : error :=
  {| is_validation_result := false; array := [];
     code := None; statusCode := None;
     message := type_error_message; stack := type_error_stack |}.

(** The handler of [router.get('/me', ...)]; [authorization] is
    [req.headers.authorization]. *)
Definition me (authorization : option string) : handled :=
  match authorization with
  | None => NextError TypeError
  | Some header =>
      let accessToken := split_space header !! 1 in
      match getUser accessToken with
      | inr userInfo =>
          let attributes := attributes_of (UserAttributes userInfo) in
          Answer {| status := 200;
                    json := Object
                      (field "username" (Username userInfo)
                         (field "email" (attributes !! "email")
                            (field "givenName" (attributes !! "given_name")
                               (field "familyName" (attributes !! "family_name")
                                  (field "role" (attributes !! "custom:role")
                                     (field "employeeId"
                                        (attributes !! "custom:employeeId") ∅)))))) |}
      | inl err =>
          if from_option (String.eqb "NotAuthorizedException") false (code err)
          then Answer (answer 401 "Invalid or expired token")
          else NextError err
      end
  end.

(** The route as the client sees it: what the handler hands to [next]
    ends in the error handler that app.js mounts last. *)
Definition get_me (production : bool) (authorization : option string) : response :=
  match me authorization with
  | Answer r => r
  | NextError err => errorHandler production err
  end.

End Me.

End AuthRoutes.

(** ** frontend/src/contexts/CartContext.jsx *)

Module CartContext.
Import Js.

(** A product of the catalogue, and a line of the cart: the product's
    fields ([name], [price] and whatever else it has) with a quantity. *)
Record product := {
  product_id : string;                    (* product.productId *)
  product_fields : gmap string value
}.

Record item := {
  productId : string;
  quantity : Z;
  fields : gmap string value
}.

(** [{ ...item, quantity }] *)
Definition with_quantity (q : Z) (i : item) : item :=
  {| productId := productId i; quantity := q; fields := fields i |}.

(** The updater of [addToCart(product)]. *)
Definition addToCart (p : product) (prevCart : list item) : list item :=
  match find (fun i => String.eqb (productId i) (product_id p)) prevCart with
  | Some existingItem =>
      map (fun i => if String.eqb (productId i) (product_id p)
                    then with_quantity (quantity i + 1) i else i) prevCart
  | None =>
      prevCart ++ [{| productId := product_id p; quantity := 1;
                      fields := product_fields p |}]
  end.

(** The updater of [removeFromCart(productId)]. *)
Definition removeFromCart (id : string) (prevCart : list item) : list item :=
  List.filter (fun i => negb (String.eqb (productId i) id)) prevCart.

(** [updateQuantity(productId, quantity)] *)
Definition updateQuantity (id : string) (q : Z) (prevCart : list item) : list item :=
  if (q <=? 0)%Z then removeFromCart id prevCart
  else map (fun i => if String.eqb (productId i) id then with_quantity q i else i)
         prevCart.

Definition clearCart (prevCart : list item) : list item := [].

(** [itemCount: cart.reduce((count, item) => count + item.quantity, 0)] *)
Definition itemCount (cart : list item) : Z :=
  fold_left (fun count i => (count + quantity i)%Z) cart 0%Z.

(** What the user can do to the cart. *)
Inductive action :=
| AddToCart (p : product)
| UpdateQuantity (id : string) (q : Z)
| RemoveFromCart (id : string)
| ClearCart.

Definition act (a : action) (cart : list item) : list item :=
  match a with
  | AddToCart p => addToCart p cart
  | UpdateQuantity id q => updateQuantity id q cart
  | RemoveFromCart id => removeFromCart id cart
  | ClearCart => clearCart cart
  end.

(** The cart after a series of actions, from [useState([])]. *)
Definition cart_after (actions : list action) : list item :=
  fold_left (fun cart a => act a cart) actions [].

(** The two properties every cart keeps: no two lines for one product,
    and no quantity below one. *)
Definition well_formed (cart : list item) : Prop :=
  NoDup (map productId cart) /\ Forall (fun i => (1 <= quantity i)%Z) cart.

(** The quantity of a product in the cart, 0 when it is not there. *)
Definition quantity_of (id : string) (cart : list item) : Z :=
  match find (fun i => String.eqb (productId i) id) cart with
  | Some i => quantity i
  | None => 0
  end.

End CartContext.

(** ** backend/src/routes/transactions.js and utils/dynamodb.js:
       POST /api/transactions *)

Module Transactions.
Import Js.

(** JSON as it arrives in [req.body] and goes into the table. *)
#[warnings="-register-all"]
Inductive json :=
| JNull
| JBool (b : bool)
| JNum (n : Z)
| JStr (s : string)
| JArr (elements : list json)
| JObj (members : list (string * json)).

(** [!!v] for a field read. *)
Definition truthy_json (v : option json) : bool :=
  match v with
  | None => false
  | Some JNull => false
  | Some (JBool b) => b
  | Some (JNum n) => negb (Z.eqb n 0)
  | Some (JStr s) => negb (String.eqb s EmptyString)
  | Some (JArr _) => true
  | Some (JObj _) => true
  end.

(** A claim of the verified token as JSON. *)
Definition of_claim (v : value) : json :=
  match v with
  | Str s => JStr s
  | Num n => JNum n
  end.

(** [{ ...o, [name]: v }]; a field set to [undefined] is left out when the
    object is written or sent. *)
Definition put (name : string) (v : option json) (o : gmap string json)
    : gmap string json :=
  match v with
  | Some x => <[name := x]> o
  | None => delete name o
  end.

(** [s.split(c)[0]] *)
Fixpoint before (c : ascii) (s : string) : string :=
  match s with
  | EmptyString => EmptyString
  | String a rest => if Ascii.eqb a c then EmptyString else String a (before c rest)
  end.

(** The transaction the route hands to [createTransaction]:
    [{ ...req.body, cashierId: req.user.sub }]. *)
Definition transaction_of (body : gmap string json) (user : gmap string value)
    : gmap string json :=
  put "cashierId" (of_claim <$> user !! "sub") body.

(** The item [createTransaction] puts into the table and returns;
    [transactionId] is the fresh [uuidv4()] and [timestamp] is
    [new Date().toISOString()]. *)
Definition createTransaction (transactionId timestamp : string)
    (transaction : gmap string json) : gmap string json :=
  let date := before "T" timestamp in
  put "status"
    (Some (if truthy_json (transaction !! "status")
           then default JNull (transaction !! "status")
           else JStr "completed"))
    (transaction ∪ {[ "transactionId" := JStr transactionId;
                      "timestamp" := JStr timestamp;
                      "date" := JStr date ]}).

(** The handler of [router.post('/', ...)] once the body has passed the
    validators: the item it stores and answers with, status 201. *)
Definition post_transaction (transactionId timestamp : string)
    (body : gmap string json) (user : gmap string value) : gmap string json :=
  createTransaction transactionId timestamp (transaction_of body user).

End Transactions.

(** * Properties of the middlewares *)

Module AuthMiddlewareSpec.
Import Js AuthMiddleware.

Lemma split_space_nonempty (s : string) : split_space s <> [].
Proof.
  induction s as [|c s IH]; simpl; [discriminate|].
  destruct (Ascii.eqb c " "); [discriminate|].
  destruct (split_space s); [contradiction|discriminate].
Qed.

Example split_space_bearer :
  split_space "Bearer abc.def.ghi" = ["Bearer"; "abc.def.ghi"]
  /\ split_space "Bearer  abc" = ["Bearer"; EmptyString; "abc"]
  /\ split_space "Bearer" = ["Bearer"]
  /\ split_space EmptyString = [EmptyString].
Proof. repeat split. Qed.

Lemma split_space_two_nonempty (s a b : string) :
  split_space s = [a; b] -> s <> EmptyString.
Proof. intros H ->. discriminate H. Qed.

Lemma truthy_string_nonempty (s : string) :
  s <> EmptyString -> truthy_string (Some s) = true.
Proof. intros H. destruct s; [contradiction|reflexivity]. Qed.

Section HeaderFacts.
Variable jws_decode : string -> option decoded_token.
Variable jws_verify : string -> string -> string -> bool.
Variable clock : Z.
Variable getSigningKey : option string -> js_error + string.

Abbreviation auth := (authenticate jws_decode jws_verify clock getSigningKey).

(** Past the two header checks, [authenticate] is its token part. *)
Lemma authenticate_bearer (req : request) (s token : string) :
  authorization req = Some s ->
  split_space s = ["Bearer"; token] ->
  auth req =
    match jws_decode token with
    | None => (Respond invalid_token, [])
    | Some d =>
        match getSigningKey (kid d) with
        | inl e => (Respond (on_error e), [KeyLookup (kid d)])
        | inr key =>
            match jwt_verify jws_decode jws_verify clock token key
                    {| algorithms := ["RS256"];
                       audience := None; issuer := None |} with
            | inl e => (Respond (on_error e), [KeyLookup (kid d)])
            | inr claims =>
                (Next {| authorization := authorization req;
                         user := Some claims |}, [KeyLookup (kid d)])
            end
        end
    end.
Proof.
  intros Hh Hs. unfold authenticate, jwt_decode.
  rewrite Hh, (truthy_string_nonempty s (split_space_two_nonempty _ _ _ Hs)).
  simpl. rewrite Hs. reflexivity.
Qed.

Lemma authenticate_malformed (req : request) (s : string) :
  authorization req = Some s ->
  s <> EmptyString ->
  (forall token, split_space s <> ["Bearer"; token]) ->
  auth req = (Respond bad_format, []).
Proof.
  intros Hh Hne Hs. unfold authenticate.
  rewrite Hh, (truthy_string_nonempty s Hne). simpl.
  destruct (split_space s) as [|p0 [|token [|x l]]] eqn:E; try reflexivity.
  destruct (String.eqb_spec p0 "Bearer") as [->|]; [|reflexivity].
  destruct (Hs token). reflexivity.
Qed.

Lemma on_error_cases (e : js_error) :
  on_error e = token_expired \/ on_error e = invalid_token
  \/ on_error e = authentication_failed.
Proof.
  unfold on_error.
  destruct (String.eqb (name e) "TokenExpiredError"); [tauto|].
  destruct (String.eqb (name e) "JsonWebTokenError"); tauto.
Qed.

Lemma on_error_status (e : js_error) : status (on_error e) = 401.
Proof. destruct (on_error_cases e) as [->|[->| ->]]; reflexivity. Qed.

Lemma header_responses_differ (r : response) :
  r = token_expired \/ r = invalid_token \/ r = authentication_failed ->
  r <> no_header /\ r <> bad_format.
Proof.
  intros [->|[->| ->]]; split; intros H;
    apply (f_equal message) in H; vm_compute in H; discriminate H.
Qed.

(** C7 (amended): a request whose Authorization header is absent or empty
    is answered 401 "No authorization header provided"; one whose header
    is not empty and is not exactly the two space-separated parts
    [Bearer] and a token is answered 401 with the format message; the two
    answers differ, no key is looked up for either, and no request that
    passed both header checks is ever answered with one of them. *)
Theorem authenticate_header_rejections (req : request) :
  (authorization req = None \/ authorization req = Some EmptyString ->
     auth req = (Respond no_header, []))
  /\ (forall s, authorization req = Some s -> s <> EmptyString ->
        (forall token, split_space s <> ["Bearer"; token]) ->
        auth req = (Respond bad_format, []))
  /\ no_header <> bad_format
  /\ (forall s token r, authorization req = Some s ->
        split_space s = ["Bearer"; token] ->
        fst (auth req) = Respond r -> r <> no_header /\ r <> bad_format).
Proof.
  split; [|split; [|split]].
  - intros [H|H]; unfold authenticate; rewrite H; reflexivity.
  - intros s. apply authenticate_malformed.
  - intros H. apply (f_equal message) in H. vm_compute in H. discriminate H.
  - intros s token r Hh Hs Hr.
    rewrite (authenticate_bearer req s token Hh Hs) in Hr.
    apply header_responses_differ.
    destruct (jws_decode token) as [d|]; simpl in Hr; [|injection Hr as <-; tauto].
    destruct (getSigningKey (kid d)) as [e|key]; simpl in Hr;
      [injection Hr as <-; apply on_error_cases|].
    destruct (jwt_verify _ _ _ _ _ _) as [e|claims]; simpl in Hr;
      [injection Hr as <-; apply on_error_cases|discriminate Hr].
Qed.

(** The verifier turns down an algorithm outside its list before it looks
    at the signature. *)
Lemma jwt_verify_other_algorithm (token key : string) (d : decoded_token) :
  jws_decode token = Some d ->
  alg d <> Some "RS256" ->
  jwt_verify jws_decode jws_verify clock token key
    {| algorithms := ["RS256"]; audience := None; issuer := None |}
  = inl JsonWebTokenError.
Proof.
  intros Hd Ha. unfold jwt_verify. rewrite Hd.
  destruct (alg d) as [a|]; [|reflexivity]. simpl.
  destruct (String.eqb_spec a "RS256") as [->|]; [contradiction|reflexivity].
Qed.

(** C2 (amended): a token that decodes and declares an algorithm other
    than RS256 is always turned down with a 401 and never passed on, but
    only after the signing key of its key identifier has been looked up:
    exactly one key lookup is made.  The answer is "Invalid token" when
    the lookup yields a key, and the answer to the lookup's error when it
    does not. *)
Theorem other_algorithm_rejected_after_lookup
    (req : request) (s token : string) (d : decoded_token) :
  authorization req = Some s ->
  split_space s = ["Bearer"; token] ->
  jws_decode token = Some d ->
  alg d <> Some "RS256" ->
  exists r,
    auth req = (Respond r, [KeyLookup (kid d)])
    /\ status r = 401
    /\ r = match getSigningKey (kid d) with
           | inl e => on_error e
           | inr _ => invalid_token
           end.
Proof.
  intros Hh Hs Hd Ha. rewrite (authenticate_bearer req s token Hh Hs), Hd.
  destruct (getSigningKey (kid d)) as [e|key].
  - exists (on_error e). auto using on_error_status.
  - rewrite (jwt_verify_other_algorithm token key d Hd Ha).
    exists invalid_token. auto.
Qed.

(** C3 (amended): [authenticate] asks the verifier for the RS256
    allow-list only and configures no expected issuer or audience.  A
    token that decodes, declares RS256, is signed for the key of its key
    identifier and is inside its validity window is passed on with its
    claims attached, whatever its issuer and audience claims are. *)
Theorem authenticate_accepts_any_issuer
    (req : request) (s token key : string) (d : decoded_token) :
  authorization req = Some s ->
  split_space s = ["Bearer"; token] ->
  jws_decode token = Some d ->
  alg d = Some "RS256" ->
  getSigningKey (kid d) = inr key ->
  jws_verify token "RS256" key = true ->
  check_nbf clock (payload d) = None ->
  check_exp clock (payload d) = None ->
  auth req = (Next {| authorization := authorization req;
                      user := Some (payload d) |}, [KeyLookup (kid d)]).
Proof.
  intros Hh Hs Hd Ha Hk Hv Hn He.
  rewrite (authenticate_bearer req s token Hh Hs), Hd, Hk.
  unfold jwt_verify. rewrite Hd, Ha. simpl. rewrite Hv, Hn, He. reflexivity.
Qed.

End HeaderFacts.

(** C7, a run: no header, and a header of another scheme. *)
Lemma authenticate_header_rejections_witness :
  demo_authenticate {| authorization := None; user := None |}
    = (Respond no_header, [])
  /\ demo_authenticate {| authorization := Some "Basic dXNlcjpwdw"; user := None |}
    = (Respond bad_format, []).
Proof.
  split.
  - apply (proj1 (authenticate_header_rejections
                    demo_decode demo_jws_verify 1000 demo_jwks
                    {| authorization := None; user := None |})).
    left. reflexivity.
  - apply (proj1 (proj2 (authenticate_header_rejections
                    demo_decode demo_jws_verify 1000 demo_jwks
                    {| authorization := Some "Basic dXNlcjpwdw"; user := None |}))
             "Basic dXNlcjpwdw").
    + reflexivity.
    + discriminate.
    + intros token. vm_compute. discriminate.
Defined.

(** C7 as stated fails for a header that is present and empty: it is not
    two parts with [Bearer] first, yet the answer is the one for a missing
    header, not the format error. *)
Lemma empty_header_is_answered_as_missing :
  let req := {| authorization := Some EmptyString; user := None |} in
  (forall token, split_space EmptyString <> ["Bearer"; token])
  /\ demo_authenticate req = (Respond no_header, [])
  /\ fst (demo_authenticate req) <> Respond bad_format.
Proof.
  split; [|split].
  - intros token. vm_compute. discriminate.
  - reflexivity.
  - vm_compute. discriminate.
Qed.

(** C2, a run: the HS256 token costs one lookup of [k1]. *)
Lemma other_algorithm_rejected_after_lookup_witness :
  exists r,
    demo_authenticate {| authorization := Some "Bearer hs256.k1"; user := None |}
      = (Respond r, [KeyLookup (Some "k1")])
    /\ status r = 401
    /\ r = invalid_token.
Proof.
  apply (other_algorithm_rejected_after_lookup
           demo_decode demo_jws_verify 1000 demo_jwks
           {| authorization := Some "Bearer hs256.k1"; user := None |}
           "Bearer hs256.k1" "hs256.k1"
           {| alg := Some "HS256"; kid := Some "k1";
              payload := {[ "custom:role" := Str "admin" ]} |}).
  - reflexivity.
  - reflexivity.
  - reflexivity.
  - discriminate.
Defined.

(** C2 as stated fails: for a token that declares HS256 the number of key
    lookups is one, not zero. *)
Lemma symmetric_algorithm_reaches_key_lookup :
  let req := {| authorization := Some "Bearer hs256.k1"; user := None |} in
  (alg <$> demo_decode "hs256.k1") = Some (Some "HS256")
  /\ snd (demo_authenticate req) = [KeyLookup (Some "k1")]
  /\ length (snd (demo_authenticate req)) <> 0.
Proof. split; [|split]; [reflexivity|reflexivity|vm_compute; discriminate]. Qed.

(** C3, a run: the token of another issuer and audience is passed on. *)
Lemma authenticate_accepts_any_issuer_witness :
  demo_authenticate {| authorization := Some "Bearer rs256.k1.cashier"; user := None |}
  = (Next {| authorization := Some "Bearer rs256.k1.cashier";
             user := Some demo_claims |}, [KeyLookup (Some "k1")]).
Proof.
  apply (authenticate_accepts_any_issuer
           demo_decode demo_jws_verify 1000 demo_jwks
           {| authorization := Some "Bearer rs256.k1.cashier"; user := None |}
           "Bearer rs256.k1.cashier" "rs256.k1.cashier" "pem-of-k1"
           {| alg := Some "RS256"; kid := Some "k1"; payload := demo_claims |});
    reflexivity.
Defined.

(** C3 as stated fails: a correctly signed token whose issuer is not the
    user pool and whose audience is not the application's client is
    verified and passed on, with no 401. *)
Lemma foreign_issuer_is_accepted :
  let req := {| authorization := Some "Bearer rs256.k1.cashier"; user := None |} in
  demo_claims !! "iss" <> Some (Str pool_issuer)
  /\ demo_claims !! "aud" <> Some (Str pool_client)
  /\ fst (demo_authenticate req)
     = Next {| authorization := authorization req; user := Some demo_claims |}.
Proof.
  split; [|split].
  - vm_compute. discriminate.
  - vm_compute. discriminate.
  - reflexivity.
Qed.

(** ** The role checks *)

Lemma includes_In (roles : list string) (r : string) :
  includes roles (Str r) = true <-> In r roles.
Proof.
  unfold includes. rewrite existsb_exists. simpl. split.
  - intros [x [Hx He]]. apply String.eqb_eq in He. subst. exact Hx.
  - intros H. exists r. split; [exact H|apply String.eqb_refl].
Qed.

Lemma falsy_empty (r : string) : truthy (Some (Str r)) = false <-> r = EmptyString.
Proof.
  simpl. destruct (String.eqb_spec r EmptyString); simpl; split;
    congruence.
Qed.

Lemma next_is_not_respond (req : request) (r : response) : Next req <> Respond r.
Proof. discriminate. Qed.

Lemma requireRole_cases (req : request) (requiredRole : string) :
  user req <> None ->
  requireRole requiredRole req = Next req
  \/ requireRole requiredRole req = Respond insufficient_permissions.
Proof.
  intros Hu. unfold requireRole. destruct (user req) as [u|]; [|contradiction].
  destruct (_ || _); auto.
Qed.

Lemma requireAnyRole_cases (req : request) (roles : list string) :
  user req <> None ->
  requireAnyRole roles req = Next req
  \/ requireAnyRole roles req = Respond insufficient_permissions.
Proof.
  intros Hu. unfold requireAnyRole. destruct (user req) as [u|]; [|contradiction].
  destruct (_ || _); auto.
Qed.

Lemma requireRole_next (req : request) (claims : gmap string value)
    (requiredRole : string) :
  user req = Some claims ->
  requireRole requiredRole req = Next req <->
  exists r, claims !! "custom:role" = Some (Str r)
            /\ r <> EmptyString /\ r = requiredRole.
Proof.
  intros Hu. unfold requireRole. rewrite Hu.
  destruct (claims !! "custom:role") as [[r|n]|] eqn:Hr; simpl.
  - destruct (String.eqb_spec r EmptyString) as [He|He]; simpl.
    + split; [discriminate|]. intros (r' & Heq & Hne & _).
      injection Heq as <-. contradiction.
    + destruct (String.eqb_spec r requiredRole) as [Hq|Hq]; simpl.
      * split; [|reflexivity]. intros _. exists r. auto.
      * split; [discriminate|]. intros (r' & Heq & _ & Hq').
        injection Heq as <-. contradiction.
  - split; [destruct (Z.eqb n 0); discriminate|].
    intros (r' & Heq & _). discriminate Heq.
  - split; [discriminate|]. intros (r' & Heq & _). discriminate Heq.
Qed.

Lemma requireAnyRole_next (req : request) (claims : gmap string value)
    (roles : list string) :
  user req = Some claims ->
  requireAnyRole roles req = Next req <->
  exists r, claims !! "custom:role" = Some (Str r)
            /\ r <> EmptyString /\ In r roles.
Proof.
  intros Hu. unfold requireAnyRole. rewrite Hu.
  destruct (claims !! "custom:role") as [[r|n]|] eqn:Hr.
  - cbn [from_option truthy].
    destruct (String.eqb_spec r EmptyString) as [He|He]; simpl.
    + split; [discriminate|]. intros (r' & Heq & Hne & _).
      injection Heq as <-. contradiction.
    + destruct (includes roles (Str r)) eqn:Hi; simpl.
      * split; [|reflexivity]. intros _. exists r.
        apply includes_In in Hi. auto.
      * split; [discriminate|]. intros (r' & Heq & _ & Hin).
        injection Heq as <-. apply includes_In in Hin. congruence.
  - split.
    + assert (includes roles (Num n) = false) as Hi
        by (unfold includes; induction roles; auto).
      cbn [from_option]. rewrite Hi, orb_true_r. discriminate.
    + intros (r' & Heq & _). discriminate Heq.
  - split; [discriminate|]. intros (r' & Heq & _). discriminate Heq.
Qed.

(** C8 (amended): for a request that carries verified claims, the role
    check passes the request on exactly when the [custom:role] claim is a
    string that is not empty and equals the required role (single-role
    form) or occurs among the accepted roles (any-of form).  In every
    other case, with the claim missing as well as with another role, the
    answer is the same 403 "Insufficient permissions". *)
Theorem role_check_allows_iff
    (req : request) (claims : gmap string value)
    (requiredRole : string) (roles : list string) :
  user req = Some claims ->
  (requireRole requiredRole req = Next req <->
     exists r, claims !! "custom:role" = Some (Str r)
               /\ r <> EmptyString /\ r = requiredRole)
  /\ (requireAnyRole roles req = Next req <->
     exists r, claims !! "custom:role" = Some (Str r)
               /\ r <> EmptyString /\ In r roles)
  /\ (requireRole requiredRole req <> Next req ->
      requireRole requiredRole req = Respond insufficient_permissions)
  /\ (requireAnyRole roles req <> Next req ->
      requireAnyRole roles req = Respond insufficient_permissions)
  /\ status insufficient_permissions = 403.
Proof.
  intros Hu.
  assert (user req <> None) as Hn by congruence.
  split; [apply requireRole_next; exact Hu|].
  split; [apply requireAnyRole_next; exact Hu|].
  split; [|split; [|reflexivity]].
  - destruct (requireRole_cases req requiredRole Hn); tauto.
  - destruct (requireAnyRole_cases req roles Hn); tauto.
Qed.

(** C8, a run: an admin meets [requireRole "admin"], a cashier meets the
    set of cashier and manager. *)
Lemma role_check_allows_iff_witness :
  requireRole "admin"
    {| authorization := None; user := Some {[ "custom:role" := Str "admin" ]} |}
  = Next {| authorization := None; user := Some {[ "custom:role" := Str "admin" ]} |}.
Proof.
  apply (proj2 (proj1 (role_check_allows_iff
           {| authorization := None; user := Some {[ "custom:role" := Str "admin" ]} |}
           {[ "custom:role" := Str "admin" ]} "admin" ["cashier"; "manager"]
           eq_refl))).
  exists "admin". split; [reflexivity|split; [discriminate|reflexivity]].
Defined.

(** C8 as stated fails for the empty role: the claim is present and equals
    the required role, and is a member of the accepted set, yet both
    checks answer 403. *)
Lemma empty_role_is_forbidden :
  let claims : gmap string value := {[ "custom:role" := Str EmptyString ]} in
  let req := {| authorization := None; user := Some claims |} in
  claims !! "custom:role" = Some (Str EmptyString)
  /\ In EmptyString [EmptyString; "admin"]
  /\ requireRole EmptyString req = Respond insufficient_permissions
  /\ requireAnyRole [EmptyString; "admin"] req = Respond insufficient_permissions.
Proof.
  split; [reflexivity|]. split; [left; reflexivity|].
  split; reflexivity.
Qed.

(** C9: when no verified user is attached to the request, both role checks
    answer 401 "Authentication required"; the answer is not a 403 and the
    request is not passed on. *)
Theorem role_checks_require_user
    (req : request) (requiredRole : string) (roles : list string) :
  user req = None ->
  requireRole requiredRole req = Respond authentication_required
  /\ requireAnyRole roles req = Respond authentication_required
  /\ status authentication_required = 401
  /\ requireRole requiredRole req <> Respond insufficient_permissions
  /\ requireAnyRole roles req <> Respond insufficient_permissions
  /\ (forall req', requireRole requiredRole req <> Next req')
  /\ (forall req', requireAnyRole roles req <> Next req').
Proof.
  intros Hu. unfold requireRole, requireAnyRole. rewrite Hu.
  repeat split; try reflexivity; try discriminate.
Qed.

(** C9, a run on a request that skipped [authenticate]. *)
Lemma role_checks_require_user_witness :
  requireRole "admin" {| authorization := Some "Bearer x"; user := None |}
    = Respond authentication_required
  /\ requireAnyRole ["admin"; "manager"]
       {| authorization := Some "Bearer x"; user := None |}
    = Respond authentication_required.
Proof.
  pose proof (role_checks_require_user
                {| authorization := Some "Bearer x"; user := None |}
                "admin" ["admin"; "manager"] eq_refl) as H.
  split; [exact (proj1 H)|exact (proj1 (proj2 H))].
Defined.

End AuthMiddlewareSpec.

(** * Properties of the client *)

Module ApiClientSpec.
Import Js ApiClient.

Lemma set_retry_retried (config : request_config) :
  _retry config = true -> set_retry config = config.
Proof. destruct config as [u a r]. simpl. intros ->. reflexivity. Qed.

Lemma on_request_retry (c : client) (config : request_config) :
  _retry (on_request c config) = _retry config.
Proof.
  unfold on_request.
  destruct (localStorage c !! "tokens") as [[text| |tokens]|]; try reflexivity.
  destruct (truthy _); reflexivity.
Qed.

(** A call that carries the mark is settled in the first turn, with the
    error it came with, and nothing is sent or stored. *)
Lemma on_rejected_retried (config : request_config) (status : option nat) (c : client) :
  _retry config = true ->
  on_rejected (AxiosError config status) c = (Rejected (AxiosError config status), c).
Proof.
  intros Hr. unfold on_rejected. rewrite Hr, andb_false_r. reflexivity.
Qed.

(** The first turn either settles the call and sends nothing, or has sent
    one refresh request for a call that now carries the mark. *)
Lemma on_rejected_shape (e : error) (c : client) (t : turn) (c' : client) :
  on_rejected e c = (t, c') ->
  (exists e', t = Rejected e' /\ calls c' = calls c)
  \/ (exists tokens config status,
        e = AxiosError config status
        /\ localStorage c !! "tokens" = Some (Object tokens)
        /\ t = AwaitingRefresh tokens (set_retry config)
        /\ c' = issue (RefreshPost (tokens !! "refreshToken")) c).
Proof.
  unfold on_rejected. intros H.
  destruct e as [config status|status| |];
    try (injection H as <- <-; left; eauto).
  destruct (status_is 401 status && negb (_retry config));
    [|injection H as <- <-; left; eauto].
  destruct (localStorage c !! "tokens") as [[text| |tokens]|] eqn:Hs; simpl in H.
  - destruct (negb (String.eqb text EmptyString));
      injection H as <- <-; left; eauto.
  - injection H as <- <-; left; eauto.
  - injection H as <- <-; right. exists tokens, config, status. auto.
  - injection H as <- <-; left; eauto.
Qed.

Lemma on_rejected_unauthorized (config : request_config) (c : client)
    (tokens : gmap string value) :
  _retry config = false ->
  localStorage c !! "tokens" = Some (Object tokens) ->
  on_rejected (unauthorized config) c
  = (AwaitingRefresh tokens (set_retry config),
     issue (RefreshPost (tokens !! "refreshToken")) c).
Proof.
  intros Hr Hs. unfold on_rejected, unauthorized. rewrite Hr, Hs. reflexivity.
Qed.

Lemma api_S (fuel : nat) (net : network) (config : request_config) (c : client) :
  api (S fuel) net config c =
  match respond net (calls c ++ [ApiRequest (on_request c config)])
          (on_request c config) with
  | Ok body => Some (Resolved body, issue (ApiRequest (on_request c config)) c)
  | Fail status =>
      match on_rejected (AxiosError (on_request c config) status)
              (issue (ApiRequest (on_request c config)) c) with
      | (Rejected e, c1) => Some (Failed e, c1)
      | (AwaitingRefresh tokens originalRequest, c1) =>
          match on_refresh_settled tokens originalRequest
                  (refresh net (calls c1) (tokens !! "refreshToken")) c1 with
          | (inl e, c2) => Some (Failed e, c2)
          | (inr again, c2) => api fuel net again c2
          end
      end
  end.
Proof. reflexivity. Qed.

(** The second attempt of a call is its last. *)
Lemma api_retried (fuel : nat) (net : network) (config : request_config) (c : client) :
  _retry config = true ->
  exists r,
    api (S fuel) net config c
    = Some (r, issue (ApiRequest (on_request c config)) c).
Proof.
  intros Hr. rewrite api_S.
  destruct (respond net _ _) as [body|status]; [eauto|].
  rewrite on_rejected_retried by (rewrite on_request_retry; exact Hr). eauto.
Qed.

Lemma on_refresh_settled_shape (tokens : gmap string value)
    (originalRequest : request_config) (r : refresh_result) (c : client)
    (o : error + request_config) (c' : client) :
  on_refresh_settled tokens originalRequest r c = (o, c') ->
  calls c' = calls c
  /\ forall again, o = inr again -> _retry again = _retry originalRequest.
Proof.
  unfold on_refresh_settled. destruct r as [data|status];
    intros H; injection H as <- <-; (split; [reflexivity|]).
  - intros again [= <-]. reflexivity.
  - intros again [=].
Qed.

Ltac count_calls := unfold refresh_posts, api_requests; simpl; lia.

(** C4: whatever the servers answer, a call of [api] ends, and on its way
    sends at most one refresh request and the call itself at most twice.
    A call that already carries the [_retry] mark and fails again, with
    401 or anything else, is rejected at once with that error: nothing is
    sent and nothing in the client changes. *)
Theorem api_retries_at_most_once
    (net : network) (config : request_config) (c : client) (fuel : nat) :
  2 <= fuel ->
  (exists r c' sent,
     api fuel net config c = Some (r, c')
     /\ calls c' = calls c ++ sent
     /\ refresh_posts sent <= 1
     /\ api_requests sent <= 2)
  /\ (forall retried status c0,
        _retry retried = true ->
        on_rejected (AxiosError retried status) c0
        = (Rejected (AxiosError retried status), c0)).
Proof.
  intros Hf. split; [|intros; apply on_rejected_retried; assumption].
  destruct fuel as [|[|fuel]]; [lia|lia|]. rewrite api_S.
  set (sent1 := on_request c config).
  destruct (respond net _ _) as [body|status].
  { exists (Resolved body), (issue (ApiRequest sent1) c), [ApiRequest sent1].
    repeat split; count_calls. }
  destruct (on_rejected _ _) as [t c1] eqn:E1.
  apply on_rejected_shape in E1 as
    [(e' & -> & Hc1)|(tokens & cfg & st & _ & _ & -> & ->)].
  { exists (Failed e'), c1, [ApiRequest sent1].
    repeat split; try count_calls. exact Hc1. }
  destruct (on_refresh_settled _ _ _ _) as [[e|again] c2] eqn:E2;
    apply on_refresh_settled_shape in E2 as [Hc2 Hr2].
  { exists (Failed e), c2,
      [ApiRequest sent1; RefreshPost (tokens !! "refreshToken")].
    repeat split; try count_calls.
    rewrite Hc2. simpl. rewrite <- app_assoc. reflexivity. }
  destruct (api_retried fuel net again c2 (Hr2 again eq_refl)) as [r Hr].
  exists r, (issue (ApiRequest (on_request c2 again)) c2),
    [ApiRequest sent1; RefreshPost (tokens !! "refreshToken");
     ApiRequest (on_request c2 again)].
  repeat split; try count_calls; [exact Hr|].
  simpl. rewrite Hc2. simpl. rewrite <- !app_assoc. reflexivity.
Qed.

(** C4, a run against a server that rejects everything. *)
Lemma api_retries_at_most_once_witness :
  exists r c' sent,
    api 2 rejecting get_products signed_in = Some (r, c')
    /\ calls c' = calls signed_in ++ sent
    /\ refresh_posts sent <= 1
    /\ api_requests sent <= 2.
Proof.
  apply (proj1 (api_retries_at_most_once rejecting get_products signed_in 2
                  (le_n 2))).
Defined.

(** The same run, step by step: the call, one refresh, the call again with
    the new access token, and then the second 401 as the result. *)
Example api_rejecting_run :
  let again := {| url := "/api/products";
                  Authorization := Some "Bearer access-1"; _retry := true |} in
  exists c',
    api 2 rejecting get_products signed_in = Some (Failed (unauthorized again), c')
    /\ calls c' =
       [ApiRequest {| url := "/api/products";
                      Authorization := Some "Bearer access-0"; _retry := false |};
        RefreshPost (Some (Str "refresh-0"));
        ApiRequest again].
Proof. eexists. split; vm_compute; reflexivity. Qed.

(** C10: a 401 that arrives while [localStorage] has no [tokens] item is
    rejected with the error it came with (its request now carries the
    [_retry] mark); the client is left exactly as it was: no refresh
    request is sent and the storage is not written. *)
Theorem unauthorized_without_tokens (config : request_config) (c : client) :
  localStorage c !! "tokens" = None ->
  on_rejected (unauthorized config) c
  = (Rejected (unauthorized (set_retry config)), c).
Proof.
  intros Hs. unfold on_rejected, unauthorized. rewrite Hs. simpl.
  destruct (_retry config) eqn:Hr; simpl; [|reflexivity].
  rewrite (set_retry_retried config Hr). reflexivity.
Qed.

(** C10, a run in a browser that is signed out. *)
Lemma unauthorized_without_tokens_witness :
  on_rejected (unauthorized get_products) signed_out
  = (Rejected (unauthorized (set_retry get_products)), signed_out).
Proof.
  apply (unauthorized_without_tokens get_products signed_out). reflexivity.
Defined.

(** ** A refresh that fails *)

(** C5 (amended): when a call is answered 401 with a token object in
    storage and the refresh request fails, the [tokens] item is removed
    from storage, the page is sent to [/login], and the call is rejected
    with the error of the refresh request, which is never the 401 error
    of the call itself. *)
Theorem failed_refresh_clears_session
    (fuel : nat) (net : network) (config : request_config) (c : client)
    (tokens : gmap string value) (status : option nat) :
  _retry config = false ->
  localStorage c !! "tokens" = Some (Object tokens) ->
  respond net (calls c ++ [ApiRequest (on_request c config)]) (on_request c config)
    = Fail (Some 401) ->
  refresh net
    (calls c ++ [ApiRequest (on_request c config)]
             ++ [RefreshPost (tokens !! "refreshToken")])
    (tokens !! "refreshToken") = RefreshFail status ->
  exists c',
    api (S fuel) net config c = Some (Failed (RefreshError status), c')
    /\ localStorage c' = delete "tokens" (localStorage c)
    /\ localStorage c' !! "tokens" = None
    /\ location_href c' = "/login"
    /\ RefreshError status <> unauthorized (set_retry (on_request c config)).
Proof.
  intros Hr Hs Hresp Href. rewrite api_S, Hresp.
  fold (unauthorized (on_request c config)).
  rewrite (on_rejected_unauthorized _ _ tokens)
    by (rewrite ?on_request_retry; assumption).
  simpl. rewrite <- app_assoc. rewrite Href. simpl.
  eexists. split; [reflexivity|]. simpl.
  repeat split; try discriminate. apply lookup_delete_eq.
Qed.

(** C5, a run against a server that turns the refresh token down. *)
Lemma failed_refresh_clears_session_witness :
  exists c',
    api 1 closed get_products signed_in
      = Some (Failed (RefreshError (Some 400)), c')
    /\ localStorage c' = delete "tokens" (localStorage signed_in)
    /\ localStorage c' !! "tokens" = None
    /\ location_href c' = "/login"
    /\ RefreshError (Some 400)
       <> unauthorized (set_retry (on_request signed_in get_products)).
Proof.
  apply (failed_refresh_clears_session 0 closed get_products signed_in
           stored_tokens (Some 400)); reflexivity.
Defined.

(** C5 as stated fails in its second half: the call is not rejected with
    its own 401 but with the error of the refresh request. *)
Lemma failed_refresh_rejects_with_refresh_error :
  let original :=
    unauthorized {| url := "/api/products";
                    Authorization := Some "Bearer access-0"; _retry := true |} in
  fst <$> api 2 closed get_products signed_in
    = Some (Failed (RefreshError (Some 400)))
  /\ fst <$> api 2 closed get_products signed_in <> Some (Failed original)
  /\ (forall config status,
        fst <$> api 2 closed get_products signed_in
        <> Some (Failed (AxiosError config status))).
Proof.
  split; [reflexivity|]. split; [vm_compute; discriminate|].
  intros config status. vm_compute. discriminate.
Qed.

(** ** A refresh that succeeds *)

Lemma assign_lookup_eq (field : string) (v : option value) (o : gmap string value) :
  assign field v o !! field = v.
Proof.
  unfold assign. destruct v; [apply lookup_insert_eq|apply lookup_delete_eq].
Qed.

Lemma assign_lookup_ne (field k : string) (v : option value) (o : gmap string value) :
  field <> k -> assign field v o !! k = o !! k.
Proof.
  intros H. unfold assign.
  destruct v; [apply lookup_insert_ne|apply lookup_delete_ne]; exact H.
Qed.

(** The object that the second turn stores. *)
Lemma newTokens_fields (tokens data : gmap string value) :
  let newTokens :=
    assign "expiresIn" (data !! "expiresIn")
      (assign "idToken" (data !! "idToken")
         (assign "accessToken" (data !! "accessToken") tokens)) in
  newTokens !! "accessToken" = data !! "accessToken"
  /\ newTokens !! "idToken" = data !! "idToken"
  /\ newTokens !! "expiresIn" = data !! "expiresIn"
  /\ (forall field, field <> "accessToken" -> field <> "idToken" ->
        field <> "expiresIn" -> newTokens !! field = tokens !! field).
Proof.
  simpl. repeat split.
  - rewrite !assign_lookup_ne by discriminate. apply assign_lookup_eq.
  - rewrite assign_lookup_ne by discriminate. apply assign_lookup_eq.
  - apply assign_lookup_eq.
  - intros field Ha Hi He. rewrite !assign_lookup_ne by congruence. reflexivity.
Qed.

(** C6 (amended): a refresh that succeeds for a call answered 401 writes
    back the stored token object with three fields taken from the refresh
    response: the access token, the ID token and [expiresIn].  Every
    other field of the object, the refresh token among them, keeps its
    stored value; no other item of the storage is written and the page
    stays where it is. *)
Theorem successful_refresh_updates_tokens
    (config : request_config) (c : client) (tokens data : gmap string value) :
  _retry config = false ->
  localStorage c !! "tokens" = Some (Object tokens) ->
  exists c1 again c2 newTokens,
    on_rejected (unauthorized config) c
      = (AwaitingRefresh tokens (set_retry config), c1)
    /\ on_refresh_settled tokens (set_retry config) (RefreshOk data) c1
      = (inr again, c2)
    /\ localStorage c2 !! "tokens" = Some (Object newTokens)
    /\ newTokens !! "accessToken" = data !! "accessToken"
    /\ newTokens !! "idToken" = data !! "idToken"
    /\ newTokens !! "expiresIn" = data !! "expiresIn"
    /\ newTokens !! "refreshToken" = tokens !! "refreshToken"
    /\ (forall field, field <> "accessToken" -> field <> "idToken" ->
          field <> "expiresIn" -> newTokens !! field = tokens !! field)
    /\ (forall key, key <> "tokens" ->
          localStorage c2 !! key = localStorage c !! key)
    /\ location_href c2 = location_href c.
Proof.
  intros Hr Hs.
  destruct (newTokens_fields tokens data) as (Ha & Hi & He & Hf).
  eexists _, _, _, _. split; [apply on_rejected_unauthorized; assumption|].
  split; [reflexivity|]. simpl.
  split; [apply lookup_insert_eq|].
  repeat split; try assumption.
  - apply Hf; discriminate.
  - intros key Hk. apply lookup_insert_ne. congruence.
Qed.

(** C6, a run: the refresh token of the signed-in browser survives. *)
Lemma successful_refresh_updates_tokens_witness :
  exists c1 again c2 newTokens,
    on_rejected (unauthorized get_products) signed_in
      = (AwaitingRefresh stored_tokens (set_retry get_products), c1)
    /\ on_refresh_settled stored_tokens (set_retry get_products)
         (RefreshOk (issued 1)) c1 = (inr again, c2)
    /\ localStorage c2 !! "tokens" = Some (Object newTokens)
    /\ newTokens !! "accessToken" = issued 1 !! "accessToken"
    /\ newTokens !! "idToken" = issued 1 !! "idToken"
    /\ newTokens !! "expiresIn" = issued 1 !! "expiresIn"
    /\ newTokens !! "refreshToken" = stored_tokens !! "refreshToken"
    /\ (forall field, field <> "accessToken" -> field <> "idToken" ->
          field <> "expiresIn" -> newTokens !! field = stored_tokens !! field)
    /\ (forall key, key <> "tokens" ->
          localStorage c2 !! key = localStorage signed_in !! key)
    /\ location_href c2 = location_href signed_in.
Proof.
  apply (successful_refresh_updates_tokens get_products signed_in
           stored_tokens (issued 1)); reflexivity.
Defined.

(** C6 as stated fails: besides the access and the ID token the stored
    [expiresIn] is replaced as well. *)
Lemma refresh_replaces_expiresIn :
  let c2 := snd (on_refresh_settled stored_tokens (set_retry get_products)
                   (RefreshOk (issued 1))
                   (snd (on_rejected (unauthorized get_products) signed_in))) in
  localStorage signed_in !! "tokens" = Some (Object stored_tokens)
  /\ stored_tokens !! "expiresIn" = Some (Num 3600)
  /\ exists newTokens,
       localStorage c2 !! "tokens" = Some (Object newTokens)
       /\ newTokens !! "expiresIn" = Some (Num 300)
       /\ newTokens !! "expiresIn" <> stored_tokens !! "expiresIn".
Proof.
  split; [reflexivity|]. split; [reflexivity|].
  eexists. split; [vm_compute; reflexivity|].
  split; [reflexivity|vm_compute; discriminate].
Qed.

(** ** Several calls rejected at the same time *)

Lemma refresh_posts_app (l1 l2 : list call) :
  refresh_posts (l1 ++ l2) = refresh_posts l1 + refresh_posts l2.
Proof. unfold refresh_posts. rewrite List.filter_app, length_app. reflexivity. Qed.

Lemma refresh_posts_replicate (n : nat) (t : option value) :
  refresh_posts (replicate n (RefreshPost t)) = n.
Proof.
  unfold refresh_posts. induction n as [|n IH]; simpl; [reflexivity|].
  rewrite IH. reflexivity.
Qed.

(** Each handler of the group finds the same stored object, because a
    first turn writes nothing, and each sends a refresh request. *)
Lemma deliver_unauthorized (configs : list request_config) :
  forall (c : client) (tokens : gmap string value),
  localStorage c !! "tokens" = Some (Object tokens) ->
  Forall (fun config => _retry config = false) configs ->
  deliver (map unauthorized configs) c
  = (map (fun config => AwaitingRefresh tokens (set_retry config)) configs,
     {| localStorage := localStorage c;
        location_href := location_href c;
        calls := calls c ++ replicate (length configs)
                              (RefreshPost (tokens !! "refreshToken")) |}).
Proof.
  induction configs as [|config configs IH]; intros c tokens Hs Hall.
  - simpl. rewrite app_nil_r. destruct c; reflexivity.
  - inversion Hall as [|x l Hr Hrest]; subst. cbn [map deliver].
    rewrite (on_rejected_unauthorized config c tokens Hr Hs).
    rewrite (IH (issue (RefreshPost (tokens !! "refreshToken")) c) tokens Hs Hrest).
    simpl. rewrite <- app_assoc. reflexivity.
Qed.

(** The request interceptor finds the object the handler has just stored
    and leaves the header of the repeated call as the handler set it. *)
Lemma on_refresh_settled_ok (tokens data : gmap string value)
    (originalRequest : request_config) (c : client) :
  exists again c',
    on_refresh_settled tokens originalRequest (RefreshOk data) c = (inr again, c')
    /\ on_request c' again = again
    /\ again = set_Authorization
                 ("Bearer " +:+ template (data !! "accessToken")) originalRequest.
Proof.
  destruct (newTokens_fields tokens data) as (Ha & _). simpl in Ha.
  eexists _, _. split; [reflexivity|]. rewrite Ha. split; [|reflexivity].
  unfold on_request, setItem. cbn [localStorage].
  rewrite lookup_insert_eq, Ha.
  destruct (truthy (data !! "accessToken")); reflexivity.
Qed.

(** C1 (amended): there is no shared refresh in the client.  When the
    rejections of N calls, each answered 401 and none retried before,
    arrive one after the other while the storage holds a token object,
    every one of the N handlers sends its own refresh request with the
    stored refresh token: N refresh requests in all, and the storage is
    not written meanwhile.  Each handler then repeats its call with the
    access token of the response to its own refresh request, whatever the
    storage held before. *)
Theorem concurrent_rejections_refresh_each
    (configs : list request_config) (c : client) (tokens : gmap string value) :
  localStorage c !! "tokens" = Some (Object tokens) ->
  Forall (fun config => _retry config = false) configs ->
  exists c',
    deliver (map unauthorized configs) c
      = (map (fun config => AwaitingRefresh tokens (set_retry config)) configs, c')
    /\ calls c' = calls c ++ replicate (length configs)
                                (RefreshPost (tokens !! "refreshToken"))
    /\ refresh_posts (calls c') = refresh_posts (calls c) + length configs
    /\ localStorage c' = localStorage c
    /\ (forall config data c2,
          exists again c3,
            on_refresh_settled tokens (set_retry config) (RefreshOk data) c2
              = (inr again, c3)
            /\ on_request c3 again = again
            /\ again = set_Authorization
                         ("Bearer " +:+ template (data !! "accessToken"))
                         (set_retry config)).
Proof.
  intros Hs Hall. eexists.
  split; [exact (deliver_unauthorized configs c tokens Hs Hall)|].
  cbn [calls localStorage].
  split; [reflexivity|]. split; [|split; [reflexivity|]].
  - rewrite refresh_posts_app, refresh_posts_replicate. reflexivity.
  - intros config data c2.
    exact (on_refresh_settled_ok tokens data (set_retry config) c2).
Qed.

(** C1, a run with three calls rejected together. *)
Lemma concurrent_rejections_refresh_each_witness :
  exists c',
    deliver (map unauthorized [get_products; get_transactions; get_products])
      signed_in
    = (map (fun config => AwaitingRefresh stored_tokens (set_retry config))
         [get_products; get_transactions; get_products], c')
    /\ refresh_posts (calls c') = 3.
Proof.
  destruct (concurrent_rejections_refresh_each
              [get_products; get_transactions; get_products]
              signed_in stored_tokens eq_refl)
    as (c' & Hd & _ & Hn & _).
  - repeat constructor.
  - exists c'. split; [exact Hd|exact Hn].
Defined.

(** C1 as stated fails: two calls rejected together, with no refresh
    under way, send two refresh requests, and each repeats its call with
    the access token of its own refresh response, so the two do not see
    one token set. *)
Lemma two_rejections_two_refreshes :
  let waiting :=
    deliver [unauthorized get_products; unauthorized get_transactions] signed_in in
  refresh_posts (calls signed_in) = 0
  /\ fst waiting = [AwaitingRefresh stored_tokens (set_retry get_products);
                    AwaitingRefresh stored_tokens (set_retry get_transactions)]
  /\ calls (snd waiting) = [RefreshPost (Some (Str "refresh-0"));
                            RefreshPost (Some (Str "refresh-0"))]
  /\ refresh_posts (calls (snd waiting)) <> 1
  /\ fst (on_refresh_settled stored_tokens (set_retry get_products)
            (RefreshOk (issued 1)) (snd waiting))
     = inr {| url := "/api/products";
              Authorization := Some "Bearer access-1"; _retry := true |}
  /\ fst (on_refresh_settled stored_tokens (set_retry get_transactions)
            (RefreshOk (issued 2)) (snd waiting))
     = inr {| url := "/api/transactions/me";
              Authorization := Some "Bearer access-2"; _retry := true |}.
Proof.
  repeat split; try reflexivity. vm_compute. discriminate.
Qed.

End ApiClientSpec.

(** * More about the middlewares *)

Module AuthMiddlewareProps.
Import Js AuthMiddleware AuthMiddlewareSpec.

Section Verification.
Variable jws_decode : string -> option decoded_token.
Variable jws_verify : string -> string -> string -> bool.
Variable clock : Z.
Variable getSigningKey : option string -> js_error + string.

Abbreviation authn := (authenticate jws_decode jws_verify clock getSigningKey).
Abbreviation rs256_only :=
  {| algorithms := ["RS256"]; audience := None; issuer := None |}.

(** The three ways through the header checks. *)
Lemma authenticate_cases (req : request) :
  authn req = (Respond no_header, [])
  \/ authn req = (Respond bad_format, [])
  \/ exists s token,
       authorization req = Some s /\ split_space s = ["Bearer"; token].
Proof.
  unfold authenticate.
  destruct (authorization req) as [s|]; simpl; [|auto].
  destruct (String.eqb s EmptyString); simpl; [auto|].
  destruct (split_space s) as [|p0 [|token [|x l]]] eqn:Hs; auto.
  destruct (String.eqb_spec p0 "Bearer") as [->|]; simpl; [|auto].
  right. right. eauto.
Qed.

(** What the verifier has checked when it returns a payload. *)
Lemma jwt_verify_inr (token key : string) (claims : gmap string value) :
  jwt_verify jws_decode jws_verify clock token key rs256_only = inr claims ->
  exists d,
    jws_decode token = Some d
    /\ alg d = Some "RS256"
    /\ jws_verify token "RS256" key = true
    /\ check_nbf clock (payload d) = None
    /\ check_exp clock (payload d) = None
    /\ claims = payload d.
Proof.
  unfold jwt_verify. destruct (jws_decode token) as [d|]; [|discriminate].
  destruct (alg d) as [a|] eqn:Ha; [|discriminate]. simpl.
  destruct (String.eqb_spec a "RS256") as [->|]; simpl; [|discriminate].
  destruct (jws_verify token "RS256" key) eqn:Hv; simpl; [|discriminate].
  destruct (check_nbf clock (payload d)) eqn:Hn; [discriminate|].
  destruct (check_exp clock (payload d)) eqn:He; [discriminate|].
  intros [= <-]. exists d. repeat split; assumption.
Qed.

(** The five answers [authenticate] can give. *)
Lemma authenticate_responses (req : request) (r : response) :
  fst (authn req) = Respond r ->
  r = no_header \/ r = bad_format \/ r = invalid_token
  \/ r = token_expired \/ r = authentication_failed.
Proof.
  assert (forall e, on_error e = invalid_token \/ on_error e = token_expired
                    \/ on_error e = authentication_failed) as He
    by (intros e; destruct (on_error_cases e) as [->|[->| ->]]; tauto).
  destruct (authenticate_cases req) as [H|[H|(s & token & Hh & Hs)]].
  - rewrite H. intros [= <-]. tauto.
  - rewrite H. intros [= <-]. tauto.
  - rewrite (authenticate_bearer _ _ _ _ req s token Hh Hs).
    destruct (jws_decode token) as [d|]; [|intros [= <-]; tauto].
    destruct (getSigningKey (kid d)) as [e|key];
      [intros [= <-]; destruct (He e) as [->|[->| ->]]; tauto|].
    destruct (jwt_verify _ _ _ _ _ _) as [e|claims]; [|discriminate].
    intros [= <-]; destruct (He e) as [->|[->| ->]]; tauto.
Qed.

(** Whatever [authenticate] answers, it answers with status 401, and the
    answer is never the "Authentication required" of the role checks. *)
Theorem authenticate_answers_401 (req : request) (r : response) :
  fst (authn req) = Respond r ->
  status r = 401 /\ r <> authentication_required.
Proof.
  intros H.
  destruct (authenticate_responses req r H) as [->|[->|[->|[->| ->]]]];
    (split; [reflexivity|]); intros E;
    apply (f_equal message) in E; vm_compute in E; discriminate E.
Qed.

(** What has happened when [authenticate] calls [next()]. *)
Lemma authenticate_next_inv (req req' : request) (ev : list event) :
  authn req = (Next req', ev) ->
  exists s token d key claims,
    authorization req = Some s
    /\ split_space s = ["Bearer"; token]
    /\ jws_decode token = Some d
    /\ getSigningKey (kid d) = inr key
    /\ jwt_verify jws_decode jws_verify clock token key rs256_only = inr claims
    /\ req' = {| authorization := authorization req; user := Some claims |}
    /\ ev = [KeyLookup (kid d)].
Proof.
  destruct (authenticate_cases req) as [H|[H|(s & token & Hh & Hs)]];
    try (rewrite H; discriminate).
  rewrite (authenticate_bearer _ _ _ _ req s token Hh Hs).
  destruct (jws_decode token) as [d|] eqn:Hd; [|discriminate].
  destruct (getSigningKey (kid d)) as [e|key] eqn:Hk; [discriminate|].
  destruct (jwt_verify _ _ _ _ _ _) as [e|claims] eqn:Hv; [discriminate|].
  intros [= <- <-]. exists s, token, d, key, claims.
  repeat split; assumption || reflexivity.
Qed.

(** A request is passed on only after every check has succeeded: a
    two-part Bearer header, a token that decodes and declares RS256, a
    key found for its key identifier, a signature valid for that key, and
    a validity window that contains the clock.  The request passed on is
    the one received with the token's payload as [user], and one key
    lookup was made. *)
Theorem authenticate_sound (req req' : request) (ev : list event) :
  authn req = (Next req', ev) ->
  exists s token d key,
    authorization req = Some s
    /\ split_space s = ["Bearer"; token]
    /\ jws_decode token = Some d
    /\ alg d = Some "RS256"
    /\ getSigningKey (kid d) = inr key
    /\ jws_verify token "RS256" key = true
    /\ check_nbf clock (payload d) = None
    /\ check_exp clock (payload d) = None
    /\ req' = {| authorization := authorization req; user := Some (payload d) |}
    /\ ev = [KeyLookup (kid d)].
Proof.
  intros H.
  apply authenticate_next_inv in H
    as (s & token & d & key & claims & Hh & Hs & Hd & Hk & Hv & -> & ->).
  apply jwt_verify_inr in Hv as (d' & Hd' & Ha & Hsig & Hn & He & ->).
  rewrite Hd in Hd'. injection Hd' as <-.
  exists s, token, d, key. repeat split; assumption || reflexivity.
Qed.

(** At most one key is looked up for a request, and none unless the
    header has the Bearer form and its token decodes. *)
Theorem authenticate_lookups (req : request) :
  snd (authn req) = []
  \/ exists s token d,
       authorization req = Some s
       /\ split_space s = ["Bearer"; token]
       /\ jws_decode token = Some d
       /\ snd (authn req) = [KeyLookup (kid d)].
Proof.
  destruct (authenticate_cases req) as [H|[H|(s & token & Hh & Hs)]];
    try (rewrite H; auto).
  rewrite (authenticate_bearer _ _ _ _ req s token Hh Hs).
  destruct (jws_decode token) as [d|] eqn:Hd; [|auto].
  right. exists s, token, d. repeat split; try assumption.
  destruct (getSigningKey (kid d)) as [e|key]; [reflexivity|].
  destruct (jwt_verify _ _ _ _ _ _); reflexivity.
Qed.

(** A token whose signature does not verify is answered "Invalid token",
    whatever its payload says, expired or not. *)
Theorem bad_signature_is_invalid_token
    (req : request) (s token key : string) (d : decoded_token) :
  authorization req = Some s ->
  split_space s = ["Bearer"; token] ->
  jws_decode token = Some d ->
  alg d = Some "RS256" ->
  getSigningKey (kid d) = inr key ->
  jws_verify token "RS256" key = false ->
  authn req = (Respond invalid_token, [KeyLookup (kid d)]).
Proof.
  intros Hh Hs Hd Ha Hk Hv.
  rewrite (authenticate_bearer _ _ _ _ req s token Hh Hs), Hd, Hk.
  unfold jwt_verify. rewrite Hd, Ha. simpl. rewrite Hv. reflexivity.
Qed.


(** A correctly signed token that is not valid yet ([nbf] after the
    clock) gets the catch-all answer "Authentication failed", not
    "Invalid token". *)
Theorem early_token_rejected
    (req : request) (s token key : string) (d : decoded_token) (n : Z) :
  authorization req = Some s ->
  split_space s = ["Bearer"; token] ->
  jws_decode token = Some d ->
  alg d = Some "RS256" ->
  getSigningKey (kid d) = inr key ->
  jws_verify token "RS256" key = true ->
  payload d !! "nbf" = Some (Num n) ->
  (clock < n)%Z ->
  authn req = (Respond authentication_failed, [KeyLookup (kid d)]).
Proof.
  intros Hh Hs Hd Ha Hk Hv Hn Hlt.
  rewrite (authenticate_bearer _ _ _ _ req s token Hh Hs), Hd, Hk.
  unfold jwt_verify. rewrite Hd, Ha. simpl. rewrite Hv. simpl.
  unfold check_nbf. rewrite Hn.
  destruct (Z.ltb_spec clock n); [reflexivity|lia].
Qed.

End Verification.

Lemma authenticate_answers_401_witness :
  status invalid_token = 401 /\ invalid_token <> authentication_required.
Proof.
  apply (authenticate_answers_401 demo_decode demo_jws_verify 1000 demo_jwks
           {| authorization := Some "Bearer hs256.k1"; user := None |}).
  reflexivity.
Defined.

Lemma authenticate_sound_witness :
  exists s token d key,
    Some "Bearer rs256.k1.cashier" = Some s
    /\ split_space s = ["Bearer"; token]
    /\ demo_decode token = Some d
    /\ alg d = Some "RS256"
    /\ demo_jwks (kid d) = inr key
    /\ demo_jws_verify token "RS256" key = true
    /\ check_nbf 1000 (payload d) = None
    /\ check_exp 1000 (payload d) = None
    /\ {| authorization := Some "Bearer rs256.k1.cashier"; user := Some demo_claims |}
       = {| authorization := Some "Bearer rs256.k1.cashier"; user := Some (payload d) |}
    /\ [KeyLookup (Some "k1")] = [KeyLookup (kid d)].
Proof.
  apply (authenticate_sound demo_decode demo_jws_verify 1000 demo_jwks
           {| authorization := Some "Bearer rs256.k1.cashier"; user := None |}).
  reflexivity.
Defined.

Lemma bad_signature_is_invalid_token_witness :
  authenticate demo_decode demo_jws_verify 3000 (fun _ => inr "pem-of-k2")
    {| authorization := Some "Bearer rs256.k1.cashier"; user := None |}
  = (Respond invalid_token, [KeyLookup (Some "k1")]).
Proof.
  apply (bad_signature_is_invalid_token
           demo_decode demo_jws_verify 3000 (fun _ => inr "pem-of-k2")
           {| authorization := Some "Bearer rs256.k1.cashier"; user := None |}
           "Bearer rs256.k1.cashier" "rs256.k1.cashier" "pem-of-k2"
           {| alg := Some "RS256"; kid := Some "k1"; payload := demo_claims |});
    reflexivity.
Defined.


Lemma early_token_rejected_witness :
  authenticate
    (fun _ => Some {| alg := Some "RS256"; kid := Some "k1";
                      payload := {[ "nbf" := Num 5000 ]} |})
    demo_jws_verify 1000 demo_jwks
    {| authorization := Some "Bearer early"; user := None |}
  = (Respond authentication_failed, [KeyLookup (Some "k1")]).
Proof.
  apply (early_token_rejected
           (fun _ => Some {| alg := Some "RS256"; kid := Some "k1";
                             payload := {[ "nbf" := Num 5000 ]} |})
           demo_jws_verify 1000 demo_jwks
           {| authorization := Some "Bearer early"; user := None |}
           "Bearer early" "early" "pem-of-k1"
           {| alg := Some "RS256"; kid := Some "k1";
              payload := {[ "nbf" := Num 5000 ]} |}
           5000); try reflexivity; lia.
Defined.


(** ** The two role checks against each other *)

(** The single-role check is the any-of check with a one-element list. *)
Theorem requireRole_is_requireAnyRole_singleton
    (requiredRole : string) (req : request) :
  requireRole requiredRole req = requireAnyRole [requiredRole] req.
Proof.
  unfold requireRole, requireAnyRole.
  destruct (user req) as [u|]; [|reflexivity].
  destruct (u !! "custom:role") as [v|]; [|reflexivity]. simpl.
  rewrite orb_false_r. reflexivity.
Qed.

(** Accepting more roles never turns a request away that passed before,
    and with no accepted role at all no request passes. *)
Theorem requireAnyRole_monotone (roles roles' : list string) (req : request) :
  (forall r, In r roles -> In r roles') ->
  (requireAnyRole roles req = Next req -> requireAnyRole roles' req = Next req)
  /\ (forall req', requireAnyRole [] req <> Next req').
Proof.
  intros Hsub. split.
  - destruct (user req) as [u|] eqn:Hu;
      [|unfold requireAnyRole; rewrite Hu; discriminate].
    intros H.
    apply (requireAnyRole_next req u roles Hu) in H as (r & Hr & Hne & Hin).
    apply (requireAnyRole_next req u roles' Hu). exists r. auto.
  - intros req'. unfold requireAnyRole. destruct (user req) as [u|]; [|discriminate].
    destruct (u !! "custom:role") as [v|]; simpl;
      rewrite ?orb_true_r; discriminate.
Qed.

Lemma requireAnyRole_monotone_witness :
  requireAnyRole ["cashier"; "manager"]
    {| authorization := None; user := Some demo_claims |}
  = Next {| authorization := None; user := Some demo_claims |}.
Proof.
  apply (proj1 (requireAnyRole_monotone ["cashier"] ["cashier"; "manager"]
                  {| authorization := None; user := Some demo_claims |}
                  (fun r H => or_introl (match H with
                                         | or_introl e => e
                                         | or_intror f => match f with end
                                         end)))).
  reflexivity.
Defined.

End AuthMiddlewareProps.

(** * The guards of the routes *)

Module AppSpec.
Import Js AuthMiddleware AuthMiddlewareSpec AuthMiddlewareProps App.

Section Routes.
Variable jws_decode : string -> option decoded_token.
Variable jws_verify : string -> string -> string -> bool.
Variable clock : Z.
Variable getSigningKey : option string -> js_error + string.

Abbreviation authn := (authenticate jws_decode jws_verify clock getSigningKey).
Abbreviation through := (guarded jws_decode jws_verify clock getSigningKey).

Lemma requireRole_passes_same (requiredRole : string) (req req' : request) :
  requireRole requiredRole req = Next req' -> req' = req.
Proof.
  unfold requireRole. destruct (user req); [|discriminate].
  destruct (_ || _); [discriminate|]. intros [= <-]. reflexivity.
Qed.

Lemma through_authenticate (r : route) (req : request) :
  guards r = [Authenticate] ->
  fst (through r req) = fst (authn req).
Proof.
  unfold guarded. intros ->. simpl.
  destruct (authenticate _ _ _ _ req) as [[resp|req'] ev]; reflexivity.
Qed.

Lemma through_admin (r : route) (req : request) :
  guards r = [Authenticate; RequireRole "admin"] ->
  fst (through r req) =
  match fst (authn req) with
  | Respond resp => Respond resp
  | Next req' => requireRole "admin" req'
  end.
Proof.
  unfold guarded. intros ->. simpl.
  destruct (authenticate _ _ _ _ req) as [[resp|req'] ev]; [reflexivity|].
  simpl. destruct (requireRole "admin" req'); reflexivity.
Qed.

Lemma authenticate_sets_user (req req' : request) :
  fst (authn req) = Next req' ->
  exists claims, user req' = Some claims
                 /\ authorization req' = authorization req.
Proof.
  unfold authenticate.
  destruct (negb (truthy_string (authorization req))); [discriminate|].
  destruct (split_space _) as [|p0 [|token [|x l]]]; try discriminate.
  destruct (negb (String.eqb p0 "Bearer")); [discriminate|].
  destruct (jwt_decode _ token) as [d|]; [|discriminate].
  destruct (getSigningKey (kid d)); [discriminate|].
  destruct (jwt_verify _ _ _ _ _ _) as [e|claims]; [discriminate|].
  intros [= <-]. exists claims. split; reflexivity.
Qed.

Lemma authenticate_never_asks_to_authenticate (req : request) :
  fst (authn req) <> Respond authentication_required.
Proof.
  intros H.
  destruct (authenticate_responses _ _ _ _ req _ H) as [E|[E|[E|[E|E]]]];
    apply (f_equal message) in E; vm_compute in E; discriminate E.
Qed.

Lemma authenticate_status (req : request) (resp : response) :
  fst (authn req) = Respond resp -> status resp = 401.
Proof.
  intros H.
  destruct (authenticate_responses _ _ _ _ req _ H) as [->|[->|[->|[->| ->]]]];
    reflexivity.
Qed.

(** Creating, updating and deleting a product is guarded by
    [authenticate] and then [requireRole('admin')].  A request reaches
    the handler exactly when [authenticate] passes it on with claims whose
    [custom:role] is [admin]; it is then the request [authenticate]
    built.  Behind [authenticate] the role check never answers
    "Authentication required", and a request that is turned away gets a
    401 or the 403 "Insufficient permissions". *)
Theorem admin_routes_guard (r : route) (req : request) :
  r = ProductsCreate \/ r = ProductsUpdate \/ r = ProductsDelete ->
  (forall req',
     fst (through r req) = Next req' <->
     fst (authn req) = Next req'
     /\ exists claims, user req' = Some claims
                       /\ claims !! "custom:role" = Some (Str "admin"))
  /\ fst (through r req) <> Respond authentication_required
  /\ (forall resp, fst (through r req) = Respond resp ->
        status resp = 401 \/ resp = insufficient_permissions).
Proof.
  intros Hr.
  assert (guards r = [Authenticate; RequireRole "admin"]) as Hg
    by (destruct Hr as [->|[->| ->]]; reflexivity).
  rewrite (through_admin r req Hg).
  destruct (fst (authn req)) as [resp|req1] eqn:Ha.
  - split; [|split].
    + intros req'. split; [discriminate|]. intros [H _]. discriminate H.
    + rewrite <- Ha. apply authenticate_never_asks_to_authenticate.
    + intros resp' [= <-]. left.
      apply (authenticate_status req resp Ha).
  - destruct (authenticate_sets_user req req1 Ha) as (claims & Hu & _).
    split; [|split].
    + intros req'. split.
      * intros H. pose proof (requireRole_passes_same _ _ _ H) as ->.
        split; [reflexivity|]. exists claims. split; [exact Hu|].
        apply (requireRole_next req1 claims "admin" Hu) in H
          as (x & Hx & _ & ->). exact Hx.
      * intros [[= <-] (claims' & Hu' & Hrole)].
        apply (requireRole_next req1 claims' "admin" Hu').
        exists "admin". split; [exact Hrole|]. split; [discriminate|reflexivity].
    + unfold requireRole. rewrite Hu. destruct (_ || _); discriminate.
    + intros resp H. right.
      destruct (requireRole_cases req1 "admin") as [E|E];
        [congruence|congruence|congruence].
Qed.

(** On every route of the products and transactions routers the handler
    finds [req.user]: it is the payload of the token in the request's
    Bearer header, which decoded and whose signature verified for the key
    of its key identifier.  The header itself is handed on unchanged. *)
Theorem protected_routes_attach_verified_claims
    (r : route) (req req' : request) :
  hd_error (guards r) = Some Authenticate ->
  fst (through r req) = Next req' ->
  exists s token d key,
    authorization req = Some s
    /\ split_space s = ["Bearer"; token]
    /\ jws_decode token = Some d
    /\ getSigningKey (kid d) = inr key
    /\ jws_verify token "RS256" key = true
    /\ req' = {| authorization := Some s; user := Some (payload d) |}.
Proof.
  intros Hg Hn.
  assert (fst (authn req) = Next req') as Ha.
  { destruct r; try discriminate Hg.
    all: try (rewrite through_authenticate in Hn by reflexivity; exact Hn).
    all: rewrite through_admin in Hn by reflexivity.
    all: destruct (fst (authn req)) as [resp|req1]; [discriminate Hn|].
    all: rewrite (requireRole_passes_same _ _ _ Hn); reflexivity. }
  destruct (authn req) as [o ev] eqn:E. simpl in Ha. subst o.
  apply authenticate_next_inv in E
    as (s & token & d & key & claims & Hh & Hs & Hd & Hk & Hv & -> & _).
  apply jwt_verify_inr in Hv as (d' & Hd' & _ & Hsig & _ & _ & ->).
  rewrite Hd in Hd'. injection Hd' as <-.
  exists s, token, d, key. rewrite Hh. repeat split; assumption.
Qed.

(** The route that creates users checks the role without [authenticate]
    in front of it: the router is mounted bare.  A request that comes in
    without [user], as every request from the network does, is answered
    401 "Authentication required" whatever token it carries, and no key
    is looked up. *)
Theorem create_user_route_needs_user (req : request) :
  user req = None ->
  through AuthCreateUser req = (Respond authentication_required, [])
  /\ guards AuthCreateUser = [RequireRole "admin"]
  /\ ~ In Authenticate (guards AuthCreateUser).
Proof.
  intros Hu. unfold guarded. simpl. unfold requireRole. rewrite Hu.
  split; [reflexivity|]. split; [reflexivity|].
  intros [H|[]]. discriminate H.
Qed.

End Routes.

(** The administrator's token opens the product routes for writing. *)
Lemma admin_routes_guard_witness :
  fst (guarded admin_decode demo_jws_verify 1000 demo_jwks ProductsCreate
         admin_request)
  = Next {| authorization := Some "Bearer rs256.k1.admin";
            user := Some admin_claims |}.
Proof.
  apply (proj1 (admin_routes_guard admin_decode demo_jws_verify 1000 demo_jwks
                  ProductsCreate admin_request (or_introl eq_refl))).
  split; [reflexivity|].
  exists admin_claims. split; reflexivity.
Defined.

Lemma protected_routes_attach_verified_claims_witness :
  exists s token d key,
    authorization admin_request = Some s
    /\ split_space s = ["Bearer"; token]
    /\ admin_decode token = Some d
    /\ demo_jwks (kid d) = inr key
    /\ demo_jws_verify token "RS256" key = true
    /\ {| authorization := Some "Bearer rs256.k1.admin";
          user := Some admin_claims |}
       = {| authorization := Some s; user := Some (payload d) |}.
Proof.
  apply (protected_routes_attach_verified_claims
           admin_decode demo_jws_verify 1000 demo_jwks
           TransactionsCreate admin_request); reflexivity.
Defined.

(** The same administrator's request is turned away by the route that
    creates users. *)
Lemma create_user_route_needs_user_witness :
  guarded admin_decode demo_jws_verify 1000 demo_jwks AuthCreateUser admin_request
  = (Respond authentication_required, []).
Proof.
  apply (create_user_route_needs_user admin_decode demo_jws_verify 1000 demo_jwks
           admin_request eq_refl).
Defined.

End AppSpec.

(** * More about the client *)

Module ApiClientProps.
Import Js ApiClient ApiClientSpec.

(** ** The request interceptor *)


(** ** Calls that are not answered 401 *)

Lemma on_rejected_other_status (config : request_config) (status : option nat)
    (c : client) :
  status <> Some 401 ->
  on_rejected (AxiosError config status) c = (Rejected (AxiosError config status), c).
Proof.
  intros Hs. unfold on_rejected.
  assert (status_is 401 status = false) as ->; [|reflexivity].
  destruct status as [m|]; [|reflexivity]. simpl.
  apply Nat.eqb_neq. congruence.
Qed.

(** A call that is answered with anything but a 401, a success, another
    error status or no response at all, is settled with that answer after
    this one request: no refresh request is sent, nothing is stored and
    the page stays where it is. *)
Theorem api_without_401
    (fuel : nat) (net : network) (config : request_config) (c : client) :
  respond net (calls c ++ [ApiRequest (on_request c config)]) (on_request c config)
    <> Fail (Some 401) ->
  api (S fuel) net config c
  = Some (match respond net (calls c ++ [ApiRequest (on_request c config)])
                  (on_request c config) with
          | Ok body => Resolved body
          | Fail status => Failed (AxiosError (on_request c config) status)
          end,
          {| localStorage := localStorage c;
             location_href := location_href c;
             calls := calls c ++ [ApiRequest (on_request c config)] |}).
Proof.
  intros Hr. rewrite api_S.
  destruct (respond net _ _) as [body|status]; [reflexivity|].
  rewrite on_rejected_other_status by congruence. reflexivity.
Qed.

Lemma api_without_401_witness :
  api 1 {| respond := fun _ _ => Fail (Some 403);
           refresh := fun _ _ => RefreshOk (issued 1) |} get_products signed_in
  = Some (Failed (AxiosError (on_request signed_in get_products) (Some 403)),
          {| localStorage := localStorage signed_in;
             location_href := location_href signed_in;
             calls := [ApiRequest (on_request signed_in get_products)] |}).
Proof.
  apply (api_without_401 0
           {| respond := fun _ _ => Fail (Some 403);
              refresh := fun _ _ => RefreshOk (issued 1) |}
           get_products signed_in).
  discriminate.
Defined.

(** ** Refresh and retry, from end to end *)

(** A call that is answered 401, whose refresh succeeds and whose second
    attempt succeeds, resolves with the body of the second answer.  Three
    requests were sent: the call with the stored access token, the
    refresh, and the call again with the new access token and the
    [_retry] mark.  The new token object is in storage and the page has
    not moved. *)
Theorem api_refresh_then_retry
    (fuel : nat) (net : network) (config : request_config) (c : client)
    (tokens data : gmap string value) (body : string) :
  let sent := on_request c config in
  let again :=
    set_Authorization ("Bearer " +:+ template (data !! "accessToken"))
      (set_retry sent) in
  let post := RefreshPost (tokens !! "refreshToken") in
  _retry config = false ->
  localStorage c !! "tokens" = Some (Object tokens) ->
  respond net (calls c ++ [ApiRequest sent]) sent = Fail (Some 401) ->
  refresh net (calls c ++ [ApiRequest sent; post]) (tokens !! "refreshToken")
    = RefreshOk data ->
  respond net (calls c ++ [ApiRequest sent; post; ApiRequest again]) again
    = Ok body ->
  exists c',
    api (S (S fuel)) net config c = Some (Resolved body, c')
    /\ calls c' = calls c ++ [ApiRequest sent; post; ApiRequest again]
    /\ (exists newTokens,
          localStorage c' = <["tokens" := Object newTokens]> (localStorage c)
          /\ newTokens !! "accessToken" = data !! "accessToken"
          /\ newTokens !! "refreshToken" = tokens !! "refreshToken")
    /\ location_href c' = location_href c.
Proof.
  intros sent again post Hr Hs H1 Href H2.
  rewrite api_S. fold sent. rewrite H1. fold (unauthorized sent).
  rewrite (on_rejected_unauthorized sent _ tokens)
    by (unfold sent; rewrite ?on_request_retry; assumption).
  cbn [calls issue]. rewrite <- app_assoc. cbn [app]. fold post. rewrite Href.
  destruct (on_refresh_settled_ok tokens data (set_retry sent)
              (issue post (issue (ApiRequest sent) c)))
    as (again' & c2 & E & Hreq & ->).
  fold again in E, Hreq. rewrite E.
  assert (calls c2 = calls c ++ [ApiRequest sent; post]) as Hc2.
  { apply on_refresh_settled_shape in E as [Hc _]. rewrite Hc. simpl.
    rewrite <- app_assoc. reflexivity. }
  rewrite api_S, Hreq, Hc2, <- app_assoc. cbn [app]. rewrite H2.
  eexists. split; [reflexivity|]. cbn [calls issue].
  split; [rewrite Hc2, <- app_assoc; reflexivity|].
  unfold on_refresh_settled in E. injection E as _ <-.
  split; [|reflexivity].
  destruct (newTokens_fields tokens data) as (Ha & _ & _ & Hf).
  eexists. split; [reflexivity|]. split; [exact Ha|].
  apply Hf; discriminate.
Qed.

Lemma api_refresh_then_retry_witness :
  exists c',
    api 2 {| respond := fun sent _ => match sent with
                                      | [_] => Fail (Some 401)
                                      | _ => Ok "[]"
                                      end;
             refresh := fun _ _ => RefreshOk (issued 1) |}
      get_products signed_in = Some (Resolved "[]", c')
    /\ location_href c' = "/pos".
Proof.
  destruct (api_refresh_then_retry 0
              {| respond := fun sent _ => match sent with
                                          | [_] => Fail (Some 401)
                                          | _ => Ok "[]"
                                          end;
                 refresh := fun _ _ => RefreshOk (issued 1) |}
              get_products signed_in stored_tokens (issued 1) "[]"
              eq_refl eq_refl eq_refl eq_refl eq_refl)
    as (c' & H & _ & _ & Hl).
  exists c'. split; [exact H|exact Hl].
Defined.

(** ** What a call can do to the browser *)

(** How the first turn leaves the client. *)
Lemma on_rejected_effect (e : error) (c : client) (t : turn) (c' : client) :
  on_rejected e c = (t, c') ->
  (exists e', t = Rejected e'
     /\ (c' = c
         \/ c' = {| localStorage := delete "tokens" (localStorage c);
                    location_href := "/login";
                    calls := calls c |}))
  \/ (exists tokens config status,
        e = AxiosError config status
        /\ t = AwaitingRefresh tokens (set_retry config)
        /\ c' = issue (RefreshPost (tokens !! "refreshToken")) c).
Proof.
  unfold on_rejected. intros H.
  destruct e as [config status|status| |];
    try (injection H as <- <-; left; eauto).
  destruct (status_is 401 status && negb (_retry config));
    [|injection H as <- <-; left; eauto].
  destruct (localStorage c !! "tokens") as [[text| |tokens]|] eqn:Hs; simpl in H.
  - destruct (negb (String.eqb text EmptyString));
      injection H as <- <-; left; eauto.
  - injection H as <- <-; left; eauto.
  - injection H as <- <-; right. exists tokens, config, status. auto.
  - injection H as <- <-; left; eauto.
Qed.

(** Whatever the servers answer, a call of [api] writes or removes no
    item of the storage but [tokens], only adds to the requests sent, and
    moves the page nowhere but to [/login], and there only together with
    removing the [tokens] item; a call that resolved has not moved the
    page. *)
Theorem api_frame
    (fuel : nat) (net : network) (config : request_config) (c c' : client)
    (r : result) :
  api fuel net config c = Some (r, c') ->
  (forall key, key <> "tokens" -> localStorage c' !! key = localStorage c !! key)
  /\ (exists sent, calls c' = calls c ++ sent)
  /\ (location_href c' = location_href c
      \/ location_href c' = "/login" /\ localStorage c' !! "tokens" = None)
  /\ (forall body, r = Resolved body -> location_href c' = location_href c).
Proof.
  destruct fuel as [|fuel]; [discriminate|]. rewrite api_S.
  set (sent1 := on_request c config).
  destruct (respond net _ _) as [body|status].
  { intros [= <- <-]. simpl. split; [auto|]. split; [eauto|]. auto. }
  destruct (on_rejected _ _) as [t c1] eqn:E1.
  apply on_rejected_effect in E1 as
    [(e' & -> & [->| ->])|(tokens & cfg & st & _ & -> & ->)].
  { intros [= <- <-]. simpl. split; [auto|]. split; [eauto|].
    split; [auto|discriminate]. }
  { intros [= <- <-]. simpl. split; [|split; [eauto|split]].
    - intros key Hk. apply lookup_delete_ne. congruence.
    - right. split; [reflexivity|apply lookup_delete_eq].
    - discriminate. }
  destruct (refresh net _ _) as [data|status'].
  2:{ simpl. intros [= <- <-]. simpl. split; [|split; [|split]].
      - intros key Hk. apply lookup_delete_ne. congruence.
      - exists [ApiRequest sent1; RefreshPost (tokens !! "refreshToken")].
        rewrite <- app_assoc. reflexivity.
      - right. split; [reflexivity|apply lookup_delete_eq].
      - discriminate. }
  destruct (on_refresh_settled_ok tokens data (set_retry cfg)
              (issue (RefreshPost (tokens !! "refreshToken"))
                 (issue (ApiRequest sent1) c)))
    as (again & c2 & E & _ & Hagain).
  rewrite E. destruct fuel as [|fuel]; [discriminate|].
  destruct (api_retried fuel net again c2) as [r' Hr'];
    [rewrite Hagain; reflexivity|].
  rewrite Hr'. intros [= <- <-].
  unfold on_refresh_settled in E. injection E as _ <-. simpl.
  split; [|split; [|split]].
  - intros key Hk. apply lookup_insert_ne. congruence.
  - eexists. rewrite <- !app_assoc. reflexivity.
  - auto.
  - auto.
Qed.

Lemma api_frame_witness :
  exists r c',
    api 2 closed get_products signed_in = Some (r, c')
    /\ localStorage c' !! "theme" = localStorage signed_in !! "theme".
Proof.
  eexists _, _. split; [reflexivity|].
  refine (proj1 (api_frame 2 closed get_products signed_in _ _ _) "theme" _);
    [reflexivity|discriminate].
Defined.

(** ** A token item that cannot be used *)

(** When the [tokens] item is a text that is not JSON, or is the text
    [null], a 401 sends no refresh request: the call goes out without an
    Authorization header of the interceptor's, and on the 401 the item is
    removed, the page is sent to [/login] and the call is rejected with
    the SyntaxError or TypeError that the item caused. *)
Theorem unusable_tokens_item
    (fuel : nat) (net : network) (config : request_config) (c : client)
    (i : item) :
  _retry config = false ->
  localStorage c !! "tokens" = Some i ->
  i = Null \/ (exists text, i = Unparsable text /\ text <> EmptyString) ->
  respond net (calls c ++ [ApiRequest config]) config = Fail (Some 401) ->
  api (S fuel) net config c
  = Some (Failed (match i with Null => TypeError | _ => SyntaxError end),
          {| localStorage := delete "tokens" (localStorage c);
             location_href := "/login";
             calls := calls c ++ [ApiRequest config] |}).
Proof.
  intros Hr Hs Hi Hresp. rewrite api_S.
  assert (on_request c config = config) as ->.
  { unfold on_request. rewrite Hs.
    destruct Hi as [->|(text & -> & _)]; reflexivity. }
  rewrite Hresp. unfold on_rejected. rewrite Hr. cbn [issue localStorage].
  rewrite Hs. destruct Hi as [->|(text & -> & Hne)]; simpl; [reflexivity|].
  destruct (String.eqb_spec text EmptyString); [contradiction|reflexivity].
Qed.

Lemma unusable_tokens_item_witness :
  let c := {| localStorage := {[ "tokens" := Unparsable "{oops" ]};
              location_href := "/pos"; calls := [] |} in
  api 1 rejecting get_products c
  = Some (Failed SyntaxError,
          {| localStorage := delete "tokens" (localStorage c);
             location_href := "/login";
             calls := calls c ++ [ApiRequest get_products] |}).
Proof.
  intros c.
  apply (unusable_tokens_item 0 rejecting get_products c (Unparsable "{oops")).
  - reflexivity.
  - reflexivity.
  - right. exists "{oops". split; [reflexivity|discriminate].
  - reflexivity.
Defined.

(** ** Two refreshes that end differently *)

(** Two calls are rejected together and both refresh.  When the first
    refresh fails, the [tokens] item is removed and the page is sent to
    [/login]; when the second refresh then succeeds, its handler writes
    the item back, with the new access token and the refresh token it
    read before: the browser is at [/login] with a token object in
    storage. *)
Theorem refresh_after_clear_restores_tokens
    (c : client) (tokens data : gmap string value)
    (a b : request_config) (status : option nat) :
  localStorage c !! "tokens" = Some (Object tokens) ->
  _retry a = false ->
  _retry b = false ->
  let c1 := snd (deliver [unauthorized a; unauthorized b] c) in
  let c2 := snd (on_refresh_settled tokens (set_retry a) (RefreshFail status) c1) in
  let c3 := snd (on_refresh_settled tokens (set_retry b) (RefreshOk data) c2) in
  fst (deliver [unauthorized a; unauthorized b] c)
    = [AwaitingRefresh tokens (set_retry a); AwaitingRefresh tokens (set_retry b)]
  /\ localStorage c2 !! "tokens" = None
  /\ location_href c2 = "/login"
  /\ location_href c3 = "/login"
  /\ exists newTokens,
       localStorage c3 !! "tokens" = Some (Object newTokens)
       /\ newTokens !! "accessToken" = data !! "accessToken"
       /\ newTokens !! "refreshToken" = tokens !! "refreshToken".
Proof.
  intros Hs Ha Hb.
  assert (Forall (fun config => _retry config = false) [a; b]) as Hall
    by (repeat constructor; assumption).
  pose proof (deliver_unauthorized [a; b] c tokens Hs Hall) as Hd.
  cbn [map] in Hd. rewrite Hd.
  simpl. split; [reflexivity|]. split; [apply lookup_delete_eq|].
  split; [reflexivity|]. split; [reflexivity|].
  destruct (newTokens_fields tokens data) as (Hacc & _ & _ & Hf).
  eexists. split; [apply lookup_insert_eq|]. split; [exact Hacc|].
  apply Hf; discriminate.
Qed.

Lemma refresh_after_clear_restores_tokens_witness :
  let c1 := snd (deliver [unauthorized get_products; unauthorized get_transactions]
                   signed_in) in
  let c2 := snd (on_refresh_settled stored_tokens (set_retry get_products)
                   (RefreshFail (Some 400)) c1) in
  let c3 := snd (on_refresh_settled stored_tokens (set_retry get_transactions)
                   (RefreshOk (issued 2)) c2) in
  location_href c3 = "/login"
  /\ exists newTokens,
       localStorage c3 !! "tokens" = Some (Object newTokens)
       /\ newTokens !! "accessToken" = issued 2 !! "accessToken"
       /\ newTokens !! "refreshToken" = stored_tokens !! "refreshToken".
Proof.
  destruct (refresh_after_clear_restores_tokens signed_in stored_tokens (issued 2)
              get_products get_transactions (Some 400) eq_refl eq_refl eq_refl)
    as (_ & _ & _ & Hl & Hn).
  split; [exact Hl|exact Hn].
Defined.

End ApiClientProps.

(** * The authentication context *)

Module AuthContextSpec.
Import Js AuthContext.

Lemma status_is_true (n : nat) (status : option nat) :
  ApiClient.status_is n status = true <-> status = Some n.
Proof.
  unfold ApiClient.status_is. destruct status as [m|]; [|split; discriminate].
  rewrite Nat.eqb_eq. split; congruence.
Qed.

(** The provider's [refreshTokens] and the response interceptor build the
    same token object from the same stored object and the same refresh
    response, and both write it to the [tokens] item.  After
    [refreshTokens] the React state holds what the storage holds, the
    refresh token is the old one, and the default header carries the
    access token that the interceptor puts on its repeated call. *)
Theorem refresh_paths_agree
    (t data : gmap string value) (st : state)
    (c : ApiClient.client) (originalRequest : ApiClient.request_config) :
  let done := refreshTokens_settled t (inr data) st in
  let turn := ApiClient.on_refresh_settled t originalRequest
                (ApiClient.RefreshOk data) c in
  localStorage (snd done) !! "tokens"
    = ApiClient.localStorage (snd turn) !! "tokens"
  /\ localStorage (snd done) !! "tokens" = ApiClient.Object <$> tokens (snd done)
  /\ (exists newTokens,
        fst done = inr newTokens
        /\ tokens (snd done) = Some newTokens
        /\ newTokens !! "accessToken" = data !! "accessToken"
        /\ newTokens !! "refreshToken" = t !! "refreshToken")
  /\ (exists again,
        fst turn = inr again
        /\ ApiClient.Authorization again = default_Authorization (snd done)).
Proof.
  simpl. split; [rewrite !lookup_insert_eq; reflexivity|].
  split; [rewrite lookup_insert_eq; reflexivity|].
  destruct (ApiClientSpec.newTokens_fields t data) as (Ha & _ & _ & Hf).
  split.
  - eexists. split; [reflexivity|]. split; [reflexivity|].
    split; [exact Ha|]. apply Hf; discriminate.
  - eexists. split; reflexivity.
Qed.



(** A profile request that fails with 401 or 403 logs the user out; one
    that fails in any other way, another status or no response, ends
    loading and leaves tokens, storage and default header alone. *)
Theorem profile_failure (err : ApiClient.error) (st : state) :
  let st' := fetchUserProfile_settled (inl err) st in
  loading st' = false
  /\ (response_status err = Some 401 \/ response_status err = Some 403 ->
      user st' = None /\ tokens st' = None
      /\ localStorage st' !! "tokens" = None
      /\ default_Authorization st' = None)
  /\ (response_status err <> Some 401 -> response_status err <> Some 403 ->
      st' = setLoading false st).
Proof.
  unfold fetchUserProfile_settled.
  destruct (ApiClient.status_is 401 (response_status err)) eqn:H1; simpl.
  - apply status_is_true in H1. split; [reflexivity|]. split.
    + intros _. repeat split. apply lookup_delete_eq.
    + intros Hn. contradiction.
  - destruct (ApiClient.status_is 403 (response_status err)) eqn:H3; simpl.
    + apply status_is_true in H3. split; [reflexivity|]. split.
      * intros _. repeat split. apply lookup_delete_eq.
      * intros _ Hn. contradiction.
    + split; [reflexivity|]. split; [|reflexivity].
      intros [H|H]; apply status_is_true in H; congruence.
Qed.

Lemma profile_failure_witness :
  let st := loadTokens (initial {[ "tokens" := ApiClient.Object ApiClient.stored_tokens ]}) in
  let st' := fetchUserProfile_settled
               (inl (ApiClient.AxiosError ApiClient.get_products (Some 401))) st in
  user st' = None /\ tokens st' = None
  /\ localStorage st' !! "tokens" = None
  /\ default_Authorization st' = None.
Proof.
  apply (proj1 (proj2 (profile_failure
                  (ApiClient.AxiosError ApiClient.get_products (Some 401))
                  (loadTokens (initial {[ "tokens" := ApiClient.Object ApiClient.stored_tokens ]}))))).
  left. reflexivity.
Defined.


End AuthContextSpec.

(** * The error handler and the profile route *)

Module ErrorHandlerSpec.
Import Js ErrorHandler AuthRoutes.

Lemma aws_answer_plain (err : error) (c : string) (r : response) :
  aws_answer err c = Some r ->
  status r <> 500 /\ exists m, json r = Message m None.
Proof.
  unfold aws_answer.
  repeat (destruct (String.eqb c _);
          [intros [= <-]; split; [discriminate|eexists; reflexivity]|]).
  discriminate.
Qed.

Lemma default_answer_production (err : error) :
  (status (default_answer true err) = 500 ->
   default_answer true err = answer 500 "Internal server error")
  /\ exists m, json (default_answer true err) = Message m None.
Proof.
  unfold default_answer. simpl.
  destruct (Nat.eqb_spec (number_or (statusCode err) 500) 500) as [E|E]; simpl.
  - split; [reflexivity|eexists; reflexivity].
  - split; [contradiction|eexists; reflexivity].
Qed.



Section Me.
Variable getUser : option string -> error + user_info.
Variable type_error_message : option string.
Variable type_error_stack : option string.

Abbreviation profile := (get_me getUser type_error_message type_error_stack).


Lemma split_space_scheme (scheme rest : string) :
  split_space scheme = [scheme] ->
  split_space (scheme +:+ " " +:+ rest) = scheme :: split_space rest.
Proof.
  revert rest. induction scheme as [|a s IH]; intros rest H.
  - reflexivity.
  - cbn [split_space] in H.
    change (String a s +:+ " " +:+ rest) with (String a (s +:+ " " +:+ rest)).
    cbn [split_space].
    destruct (Ascii.eqb a " ") eqn:Ea; [discriminate H|].
    destruct (split_space s) as [|w ws] eqn:E;
      [destruct (AuthMiddlewareSpec.split_space_nonempty s E)|].
    injection H as Hw Hws. subst w ws.
    rewrite (IH rest eq_refl). reflexivity.
Qed.


End Me.


End ErrorHandlerSpec.

(** * The cart *)

Module CartContextSpec.
Import Js CartContext.

Lemma find_none_not_in (id : string) (cart : list item) :
  find (fun i => String.eqb (productId i) id) cart = None ->
  ~ In id (map productId cart).
Proof.
  induction cart as [|i cart IH]; simpl; [tauto|].
  destruct (String.eqb_spec (productId i) id) as [E|E]; [discriminate|].
  intros H [Hi|Hi]; [contradiction|]. exact (IH H Hi).
Qed.

Lemma find_some_in (id : string) (cart : list item) (i : item) :
  find (fun i => String.eqb (productId i) id) cart = Some i ->
  In id (map productId cart).
Proof.
  induction cart as [|j cart IH]; simpl; [discriminate|].
  destruct (String.eqb_spec (productId j) id) as [E|E]; [auto|].
  intros H. right. exact (IH H).
Qed.

Lemma map_quantity_ids (id : string) (f : item -> Z) (cart : list item) :
  map productId
    (map (fun i => if String.eqb (productId i) id
                   then with_quantity (f i) i else i) cart)
  = map productId cart.
Proof.
  induction cart as [|i cart IH]; simpl; [reflexivity|].
  rewrite IH. destruct (String.eqb (productId i) id); reflexivity.
Qed.

Lemma removeFromCart_ids (id : string) (cart : list item) :
  map productId (removeFromCart id cart)
  = List.filter (fun x => negb (String.eqb x id)) (map productId cart).
Proof.
  unfold removeFromCart. induction cart as [|i cart IH]; simpl; [reflexivity|].
  destruct (String.eqb (productId i) id); simpl; rewrite IH; reflexivity.
Qed.

Lemma NoDup_filter_string (f : string -> bool) (l : list string) :
  NoDup l -> NoDup (List.filter f l).
Proof.
  induction 1 as [|x l Hx Hl IH]; simpl; [constructor|].
  destruct (f x); [|exact IH]. constructor; [|exact IH].
  rewrite list_elem_of_In, filter_In. rewrite list_elem_of_In in Hx. tauto.
Qed.

Lemma act_well_formed (a : action) (cart : list item) :
  well_formed cart -> well_formed (act a cart).
Proof.
  intros [Hd Hq]. destruct a as [p|id q|id|]; simpl.
  - unfold addToCart.
    destruct (find _ cart) as [existingItem|] eqn:Hf; split.
    + rewrite map_quantity_ids. exact Hd.
    + apply List.Forall_forall. intros i Hi. apply in_map_iff in Hi as (j & <- & Hj).
      rewrite List.Forall_forall in Hq. specialize (Hq j Hj).
      destruct (String.eqb (productId j) (product_id p)); simpl; lia.
    + rewrite map_app. simpl. apply NoDup_app. split; [exact Hd|].
      split; [|apply NoDup_singleton].
      intros x Hx Hx'. apply list_elem_of_In in Hx.
      apply list_elem_of_In in Hx'. destruct Hx' as [<-|[]].
      exact (find_none_not_in _ _ Hf Hx).
    + apply Forall_app. split; [exact Hq|]. repeat constructor. simpl. lia.
  - unfold updateQuantity. destruct (Z.leb_spec q 0); split.
    + rewrite removeFromCart_ids. apply NoDup_filter_string. exact Hd.
    + unfold removeFromCart. apply List.Forall_forall. intros i Hi.
      apply filter_In in Hi as [Hi _]. rewrite List.Forall_forall in Hq. auto.
    + rewrite map_quantity_ids. exact Hd.
    + apply List.Forall_forall. intros i Hi. apply in_map_iff in Hi as (j & <- & Hj).
      rewrite List.Forall_forall in Hq. specialize (Hq j Hj).
      destruct (String.eqb (productId j) id); simpl; lia.
  - split.
    + rewrite removeFromCart_ids. apply NoDup_filter_string. exact Hd.
    + unfold removeFromCart. apply List.Forall_forall. intros i Hi.
      apply filter_In in Hi as [Hi _]. rewrite List.Forall_forall in Hq. auto.
  - split; constructor.
Qed.

(** Whatever the user does, adding, changing quantities, removing,
    clearing, in any order, the cart never holds two lines for the same
    product and never a line with a quantity below one. *)
Theorem cart_stays_well_formed (actions : list action) :
  NoDup (map productId (cart_after actions))
  /\ Forall (fun i => (1 <= quantity i)%Z) (cart_after actions).
Proof.
  unfold cart_after.
  assert (forall cart, well_formed cart ->
            well_formed (fold_left (fun cart a => act a cart) actions cart)) as H.
  { induction actions as [|a actions IH]; intros cart Hc; simpl; [exact Hc|].
    apply IH. apply act_well_formed. exact Hc. }
  apply H. split; constructor.
Qed.

Lemma fold_count_shift (cart : list item) (n m : Z) :
  fold_left (fun count i => (count + quantity i)%Z) cart (n + m)%Z
  = (n + fold_left (fun count i => (count + quantity i)%Z) cart m)%Z.
Proof.
  revert m. induction cart as [|i cart IH]; intros m; simpl; [reflexivity|].
  rewrite <- Z.add_assoc. apply IH.
Qed.

Lemma itemCount_from (cart : list item) (n : Z) :
  fold_left (fun count i => (count + quantity i)%Z) cart n
  = (n + itemCount cart)%Z.
Proof.
  unfold itemCount. rewrite <- fold_count_shift. f_equal. lia.
Qed.

Lemma itemCount_cons (i : item) (cart : list item) :
  itemCount (i :: cart) = (quantity i + itemCount cart)%Z.
Proof. unfold itemCount at 1. simpl. apply itemCount_from. Qed.

Lemma itemCount_app (c1 c2 : list item) :
  itemCount (c1 ++ c2) = (itemCount c1 + itemCount c2)%Z.
Proof.
  induction c1 as [|i c1 IH]; simpl; [unfold itemCount at 2; simpl; lia|].
  rewrite !itemCount_cons, IH. lia.
Qed.

Lemma increment_absent (id : string) (cart : list item) :
  ~ In id (map productId cart) ->
  map (fun i => if String.eqb (productId i) id
                then with_quantity (quantity i + 1) i else i) cart = cart.
Proof.
  induction cart as [|i cart IH]; simpl; [reflexivity|]. intros H.
  destruct (String.eqb_spec (productId i) id) as [E|E]; [tauto|].
  rewrite IH by tauto. reflexivity.
Qed.

Lemma increment_present (id : string) (cart : list item) :
  NoDup (map productId cart) ->
  In id (map productId cart) ->
  itemCount (map (fun i => if String.eqb (productId i) id
                           then with_quantity (quantity i + 1) i else i) cart)
  = (itemCount cart + 1)%Z.
Proof.
  induction cart as [|i cart IH]; simpl; [tauto|].
  intros Hd Hin. apply NoDup_cons in Hd as [Hi Hd].
  rewrite list_elem_of_In in Hi.
  destruct (String.eqb_spec (productId i) id) as [E|E].
  - subst id. rewrite (increment_absent _ _ Hi), !itemCount_cons. simpl. lia.
  - destruct Hin as [Hin|Hin]; [contradiction|].
    rewrite !itemCount_cons, (IH Hd Hin). lia.
Qed.



Lemma quantity_of_cons (id : string) (i : item) (cart : list item) :
  quantity_of id (i :: cart)
  = if String.eqb (productId i) id then quantity i else quantity_of id cart.
Proof.
  unfold quantity_of. simpl. destruct (String.eqb (productId i) id); reflexivity.
Qed.

Lemma quantity_of_absent (id : string) (cart : list item) :
  ~ In id (map productId cart) -> quantity_of id cart = 0%Z.
Proof.
  induction cart as [|i cart IH]; [reflexivity|]. simpl. intros H.
  rewrite quantity_of_cons.
  destruct (String.eqb_spec (productId i) id); [tauto|]. apply IH. tauto.
Qed.

(** [updateQuantity] sets the quantity of the product it names and of no
    other: a quantity above zero becomes the product's quantity if the
    product is in the cart, a quantity of zero or less takes the product
    out, and for a product that is not in the cart nothing changes. *)
Theorem updateQuantity_sets (id : string) (q : Z) (cart : list item) :
  (forall other, other <> id ->
     quantity_of other (updateQuantity id q cart) = quantity_of other cart)
  /\ ((q <= 0)%Z ->
      quantity_of id (updateQuantity id q cart) = 0%Z
      /\ ~ In id (map productId (updateQuantity id q cart)))
  /\ ((0 < q)%Z -> In id (map productId cart) ->
      quantity_of id (updateQuantity id q cart) = q)
  /\ (~ In id (map productId cart) -> updateQuantity id q cart = cart).
Proof.
  unfold updateQuantity. split; [|split; [|split]].
  - intros other Hne. destruct (q <=? 0)%Z.
    + unfold removeFromCart. induction cart as [|i cart IH]; [reflexivity|].
      simpl. destruct (String.eqb_spec (productId i) id) as [E|E]; simpl.
      * rewrite quantity_of_cons, IH.
        destruct (String.eqb_spec (productId i) other); [congruence|reflexivity].
      * rewrite !quantity_of_cons, IH. reflexivity.
    + induction cart as [|i cart IH]; [reflexivity|].
      simpl. rewrite !quantity_of_cons, IH.
      destruct (String.eqb_spec (productId i) id) as [E|E]; simpl; [|reflexivity].
      destruct (String.eqb_spec (productId i) other); [congruence|reflexivity].
  - intros Hq. destruct (Z.leb_spec q 0); [|lia].
    assert (~ In id (map productId (removeFromCart id cart))) as Hn.
    { rewrite removeFromCart_ids, filter_In. intros [_ Hf].
      rewrite String.eqb_refl in Hf. discriminate Hf. }
    split; [apply quantity_of_absent; exact Hn|exact Hn].
  - intros Hq Hin. destruct (Z.leb_spec q 0); [lia|].
    induction cart as [|i cart IH]; [destruct Hin|]. simpl.
    rewrite quantity_of_cons.
    destruct (String.eqb_spec (productId i) id) as [E|E]; simpl.
    + rewrite E, String.eqb_refl. reflexivity.
    + destruct (String.eqb_spec (productId i) id); [contradiction|].
      apply IH. destruct Hin as [Hin|Hin]; [contradiction|exact Hin].
  - intros Hn. destruct (q <=? 0)%Z.
    + unfold removeFromCart. induction cart as [|i cart IH]; [reflexivity|].
      simpl in *. destruct (String.eqb_spec (productId i) id); [tauto|].
      simpl. rewrite IH by tauto. reflexivity.
    + induction cart as [|i cart IH]; [reflexivity|].
      simpl in *. destruct (String.eqb_spec (productId i) id); [tauto|].
      rewrite IH by tauto. reflexivity.
Qed.

Lemma updateQuantity_sets_witness :
  let tea := {| product_id := "p-tea"; product_fields := {[ "name" := Str "Tea" ]} |} in
  quantity_of "p-tea" (updateQuantity "p-tea" 5 (addToCart tea [])) = 5%Z.
Proof.
  intros tea.
  apply (proj1 (proj2 (proj2 (updateQuantity_sets "p-tea" 5 (addToCart tea []))))).
  - lia.
  - left. reflexivity.
Defined.

End CartContextSpec.

(** * Creating a transaction *)

Module TransactionsSpec.
Import Js Transactions.

Lemma put_lookup_eq (name : string) (v : option json) (o : gmap string json) :
  put name v o !! name = v.
Proof. unfold put. destruct v; [apply lookup_insert_eq|apply lookup_delete_eq]. Qed.

Lemma put_lookup_ne (name key : string) (v : option json) (o : gmap string json) :
  name <> key -> put name v o !! key = o !! key.
Proof.
  intros H. unfold put.
  destruct v; [apply lookup_insert_ne|apply lookup_delete_ne]; exact H.
Qed.

(** The cashier of a stored transaction is the subject of the verified
    token, whatever [cashierId] the request body carries; and its status
    is the body's when that is truthy and [completed] otherwise. *)
Theorem cashier_is_token_subject
    (transactionId timestamp : string)
    (body : gmap string json) (user : gmap string value) :
  let stored := post_transaction transactionId timestamp body user in
  stored !! "cashierId" = of_claim <$> user !! "sub"
  /\ stored !! "status"
     = Some (if truthy_json (body !! "status")
             then default JNull (body !! "status") else JStr "completed")
  /\ (forall cashierId,
        post_transaction transactionId timestamp
          (<["cashierId" := cashierId]> body) user !! "cashierId"
        = stored !! "cashierId").
Proof.
  assert (forall b : gmap string json,
            post_transaction transactionId timestamp b user !! "cashierId"
            = of_claim <$> user !! "sub") as Hc.
  { intros b. unfold post_transaction, createTransaction, transaction_of.
    rewrite put_lookup_ne by discriminate.
    destruct (user !! "sub") as [v|]; simpl.
    - rewrite lookup_union_l'; [apply lookup_insert_eq|].
      rewrite lookup_insert_eq. eauto.
    - rewrite lookup_union_r by apply lookup_delete_eq. reflexivity. }
  simpl. split; [apply Hc|]. split; [|intros; rewrite !Hc; reflexivity].
  unfold post_transaction, createTransaction, transaction_of.
  rewrite put_lookup_eq, put_lookup_ne by discriminate. reflexivity.
Qed.

(** The generated identifier, timestamp and date are only defaults: a
    field of the same name in the request body replaces them in the
    stored transaction, and every other field of the body is stored as
    it was sent. *)
Theorem body_overrides_generated
    (transactionId timestamp : string)
    (body : gmap string json) (user : gmap string value) (key : string) :
  key <> "cashierId" ->
  key <> "status" ->
  post_transaction transactionId timestamp body user !! key
  = match body !! key with
    | Some v => Some v
    | None =>
        if String.eqb key "transactionId" then Some (JStr transactionId)
        else if String.eqb key "timestamp" then Some (JStr timestamp)
        else if String.eqb key "date" then Some (JStr (before "T" timestamp))
        else None
    end.
Proof.
  intros Hc Hs. unfold post_transaction, createTransaction, transaction_of.
  rewrite put_lookup_ne by congruence.
  rewrite lookup_union, put_lookup_ne by congruence.
  destruct (body !! key) as [v|]; simpl.
  - destruct (_ !! key); reflexivity.
  - rewrite left_id by apply _.
    destruct (String.eqb_spec key "transactionId") as [->|H1];
      [reflexivity|].
    destruct (String.eqb_spec key "timestamp") as [->|H2]; [reflexivity|].
    destruct (String.eqb_spec key "date") as [->|H3]; [reflexivity|].
    rewrite !lookup_insert_ne by congruence.
    apply lookup_singleton_ne. congruence.
Qed.

Lemma body_overrides_generated_witness :
  post_transaction "7f0c" "2024-05-01T10:00:00.000Z"
    {[ "transactionId" := JStr "chosen"; "total" := JNum 12 ]}
    {[ "sub" := Str "u-17" ]} !! "transactionId"
  = Some (JStr "chosen").
Proof.
  rewrite (body_overrides_generated "7f0c" "2024-05-01T10:00:00.000Z"
             {[ "transactionId" := JStr "chosen"; "total" := JNum 12 ]}
             {[ "sub" := Str "u-17" ]} "transactionId") by discriminate.
  reflexivity.
Defined.

End TransactionsSpec.
